(** * Breakpad language helpers and the Backtrace handler, in Rocq

    A shallow embedding of [common/language.cc] (qualified-name composition
    and the per-language [DemangleName] operations, including the fallback
    decoder for legacy Rust symbols) and of [BacktraceHandler::Init] and
    [BacktraceHandlerContext::MinidumpCallback] from
    [client/linux/handler/backtrace_handler.cc].

    Conventions.
    - A [std::string] is a [string]; a [char] is an [ascii].
    - A [std::ostringstream] is the [string] written so far; [o << c]
      appends one character at its end.
    - A pair of iterators [(it, eit)] into a string, with [eit] the fixed
      end, is the suffix of the string that starts at [it]; [it == eit] is
      the empty suffix and [advance(it, 1)] drops the first character.
    - An output parameter [string* demangled] is an argument holding the
      caller's value on entry and a component of the result on return.
    - [std::unordered_map] and [std::map] are [gmap]s. *)

From Stdlib Require Import ZArith Ascii String.
From stdpp Require Import base tactics option list gmap strings sorting.

(** * The model *)

(** [o << c]: one more character at the end of the stream. *)
Definition put (o : string) (c : ascii) : string := o +:+ String c "".

(** ** The languages *)

(** [Language::DemangleResult]. *)
Inductive DemangleResult : Set :=
  | kDontDemangle
  | kDemangleSuccess
  | kDemangleFailure.

(** The five singletons [Language::CPlusPlus], [Language::Java], ... *)
Inductive Language : Set :=
  | CPlusPlus
  | Java
  | Swift
  | Rust
  | Assembler.

(** *** What the build provides

    [abi::__cxa_demangle(mangled, NULL, NULL, &status)] returns a freshly
    allocated buffer and sets [status] to 0, or returns [NULL] and sets
    [status] to one of the three error codes of [cxxabi.h]. *)
Inductive cxa_error : Set :=
  | cxa_memory_failure
  | cxa_invalid_name
  | cxa_invalid_args.

Inductive cxa_result : Set :=
  | cxa_ok (demangled_c : string)
  | cxa_err (e : cxa_error).

Definition cxa_status (r : cxa_result) : Z :=
  match r with
  | cxa_ok _ => 0
  | cxa_err cxa_memory_failure => -1
  | cxa_err cxa_invalid_name => -2
  | cxa_err cxa_invalid_args => -3
  end%Z.

(** The preprocessor symbols the file tests and the two foreign demanglers
    it calls.  [rust_demangle] returns a C string or [nullptr]. *)
Record Build : Type := {
  ANDROID : bool;
  HAVE_RUST_DEMANGLE : bool;
  cxa_demangle : string → cxa_result;
  rust_demangle : string → option string;
}.

(** *** Qualified names *)

Definition MakeQualifiedNameWithSeparator
    (parent_name separator name : string) : string :=
  match parent_name with
  | "" => name
  | _ => parent_name +:+ separator +:+ name
  end.

Module CPPLanguage.

Definition MakeQualifiedName (parent_name name : string) : string :=
  MakeQualifiedNameWithSeparator parent_name "::" name.

Definition DemangleName (B : Build) (mangled demangled : string)
    : DemangleResult * string :=
  if ANDROID B then
    (kDontDemangle, "")
  else
    match cxa_demangle B mangled with
    | cxa_ok demangled_c => (kDemangleSuccess, demangled_c)
    | cxa_err _ => (kDemangleFailure, "")
    end.

End CPPLanguage.

Module JavaLanguage.

Definition MakeQualifiedName (parent_name name : string) : string :=
  MakeQualifiedNameWithSeparator parent_name "." name.

End JavaLanguage.

Module SwiftLanguage.

Definition MakeQualifiedName (parent_name name : string) : string :=
  MakeQualifiedNameWithSeparator parent_name "." name.

Definition DemangleName (mangled demangled : string)
    : DemangleResult * string :=
  (kDemangleSuccess, mangled).

End SwiftLanguage.

Module AssemblerLanguage.

Definition HasFunctions : bool := false.

Definition MakeQualifiedName (parent_name name : string) : string := name.

End AssemblerLanguage.

(** ** The fallback decoder for legacy Rust symbols *)

(** The static table of [rust_replace_dollar]. *)
Definition map : gmap string ascii :=
  list_to_map [
    ("C",   ","%char);

    ("SP",  "@"%char);
    ("BP",  "*"%char);
    ("RF",  "&"%char);
    ("LT",  "<"%char);
    ("GT",  ">"%char);
    ("LP",  "("%char);
    ("RP",  ")"%char);

    ("u20", " "%char);
    ("u22", "\"%char);
    ("u27", "'"%char);
    ("u2b", "+"%char);

    ("u3b", ";"%char);

    ("u5b", "["%char);
    ("u5d", "]"%char);

    ("u7b", "{"%char);
    ("u7d", "}"%char);
    ("u7e", "~"%char)
  ].

(** [std::find(it, eit, c)]: the characters of [[it, e)] and the suffix that
    starts at the iterator [e] returned; [e == eit], the empty suffix, when
    [c] does not occur. *)
Fixpoint find (it : string) (c : ascii) : string * string :=
  match it with
  | "" => ("", "")
  | String a it' =>
    if (a =? c)%char then ("", it)
    else let (l, e) := find it' c in (String a l, e)
  end.

(** The iterator [it] is passed by value: the caller's copy does not move. *)
Definition rust_replace_dollar (it : string) (o : string) : bool * string :=
  let (l, e) := find it "$" in
  match e with
  | "" => (false, o)
  | _ =>
    match map !! l with
    | None => (false, o)
    | Some c => (true, put o c)
    end
  end.

(** The [while] loop of [rust_scan_replace], from the iterator [it] with
    [o] written so far.  The result is the value returned and the final
    contents of the stream. *)
Fixpoint scan_loop (it : string) (o : string) : bool * string :=
  match it with
  | "" => (true, o)
  | String c it1 =>
    if (c =? "_")%char then
      scan_loop it1 o
    else if (c =? "$")%char then
      match it1 with
      | "" => (false, o)
      | String _ it2 =>
        let (ok, o') := rust_replace_dollar it1 o in
        if ok then scan_loop it2 o' else (false, o')
      end
    else
      scan_loop it1 (put o c)
  end.

Definition rust_scan_replace (s : string) (o : string) : bool * string :=
  scan_loop s o.


(** ** Regular expressions

    The fragment of the ECMAScript grammar of [std::regex] that the pattern
    of [RustLanguage::DemangleName] is written in, with the backtracking
    matcher of that grammar: an atom is tried on the input at the current
    position and hands the rest to a continuation, a greedy quantifier tries
    one more iteration before it tries its continuation, and a group records
    the offsets between which its body matched. *)
Module Regex.

Inductive regex : Type :=
  | Bol                                   (* ^ *)
  | Eol                                   (* $ *)
  | Chr (c : ascii)                       (* a literal character *)
  | Bracket (rs : list (ascii * ascii))   (* [lo-hi ...], c alone as c-c *)
  | Seq (r1 r2 : regex)                   (* r1 r2 *)
  | Plus (r : regex)                      (* r+ *)
  | Rep (n : nat) (r : regex)             (* r{n} *)
  | Group (g : nat) (r : regex).          (* ( r ), the g-th group *)

(** [std::smatch]: for each group that took part, the offsets of its
    first character and of the character after its last. *)
Abbreviation smatch := (gmap nat (nat * nat)).

(** [sm.str(g)] for a match [sm] over the subject [s]. *)
Definition str (sm : smatch) (g : nat) (s : string) : string :=
  match sm !! g with
  | Some (b, e) => substring b (e - b) s
  | None => ""
  end.

Definition in_range (c : ascii) (r : ascii * ascii) : bool :=
  (N_of_ascii r.1 <=? N_of_ascii c)%N && (N_of_ascii c <=? N_of_ascii r.2)%N.

Definition in_bracket (c : ascii) (rs : list (ascii * ascii)) : bool :=
  existsb (in_range c) rs.

(** A matcher is given the offset reached, the input left there and the
    groups recorded so far, and a continuation for what follows. *)
Definition cont : Type := nat → string → smatch → option smatch.
Definition matcher : Type := nat → string → smatch → cont → option smatch.

(** One iteration of [m], then as many more as possible before [k]; at
    most [S n] iterations. *)
Fixpoint greedy (m : matcher) (n : nat) : matcher :=
  λ i rest sm k,
    m i rest sm (λ i' rest' sm',
      match n with
      | O => k i' rest' sm'
      | S n' =>
        match greedy m n' i' rest' sm' k with
        | Some r => Some r
        | None => k i' rest' sm'
        end
      end).

(** Exactly [n] iterations of [m]. *)
Fixpoint times (m : matcher) (n : nat) : matcher :=
  λ i rest sm k,
    match n with
    | O => k i rest sm
    | S n' => m i rest sm (λ i' rest' sm', times m n' i' rest' sm' k)
    end.

Fixpoint bt (r : regex) : matcher :=
  match r with
  | Bol => λ i rest sm k, if (i =? 0)%nat then k i rest sm else None
  | Eol => λ i rest sm k,
      match rest with "" => k i rest sm | String _ _ => None end
  | Chr c => λ i rest sm k,
      match rest with
      | String a rest' => if (a =? c)%char then k (S i) rest' sm else None
      | "" => None
      end
  | Bracket rs => λ i rest sm k,
      match rest with
      | String a rest' => if in_bracket a rs then k (S i) rest' sm else None
      | "" => None
      end
  | Seq r1 r2 => λ i rest sm k,
      bt r1 i rest sm (λ i' rest' sm', bt r2 i' rest' sm' k)
  | Plus r1 => λ i rest sm k,
      (* every iteration that matters consumes a character *)
      greedy (bt r1) (String.length rest) i rest sm k
  | Rep n r1 => times (bt r1) n
  | Group g r1 => λ i rest sm k,
      bt r1 i rest sm (λ i' rest' sm', k i' rest' (<[g := (i, i')]> sm'))
  end.

(** [std::regex_match(s, sm, r)]: the whole of [s] has to match. *)
Definition regex_match (r : regex) (s : string) : option smatch :=
  bt r 0 s ∅ (λ _ rest sm, match rest with "" => Some sm | _ => None end).

(** ["(^[a-zA-Z0-9_.:$]+)::h([a-f0-9]{16})$"] *)
Definition re : regex :=
  Seq (Group 1
        (Seq Bol
             (Plus (Bracket [("a", "z"); ("A", "Z"); ("0", "9");
                             ("_", "_"); (".", "."); (":", ":");
                             ("$", "$")]%char))))
 (Seq (Chr ":")
 (Seq (Chr ":")
 (Seq (Chr "h")
 (Seq (Group 2
        (Rep 16 (Bracket [("a", "f"); ("0", "9")]%char)))
      Eol)))).

End Regex.

Module RustLanguage.

Definition MakeQualifiedName (parent_name name : string) : string :=
  MakeQualifiedNameWithSeparator parent_name "." name.

Definition DemangleName (B : Build) (mangled demangled : string)
    : DemangleResult * string :=
  if HAVE_RUST_DEMANGLE B then
    match rust_demangle B mangled with
    | None => (kDemangleFailure, demangled)
    | Some rust_demangled => (kDemangleSuccess, rust_demangled)
    end
  else
    (* demangled->clear() comes first: every early return leaves "" *)
    match cxa_demangle B mangled with
    | cxa_err _ => (kDemangleFailure, "")
    | cxa_ok rd =>
      match Regex.regex_match Regex.re rd with
      | None => (kDemangleFailure, "")
      | Some sm =>
        let (ok, o) := rust_scan_replace (Regex.str sm 1 rd) "" in
        if ok then (kDemangleSuccess, o) else (kDemangleFailure, "")
      end
    end.

End RustLanguage.

(** Virtual dispatch of [Language::MakeQualifiedName] on the singletons. *)
Definition MakeQualifiedName (l : Language) (parent_name name : string)
    : string :=
  match l with
  | CPlusPlus => CPPLanguage.MakeQualifiedName parent_name name
  | Java => JavaLanguage.MakeQualifiedName parent_name name
  | Swift => SwiftLanguage.MakeQualifiedName parent_name name
  | Rust => RustLanguage.MakeQualifiedName parent_name name
  | Assembler => AssemblerLanguage.MakeQualifiedName parent_name name
  end.

(** ** The Backtrace handler *)
Module BacktraceHandler.

Definition kDefaultDescriptorPath : string := "/tmp".

(** The collaborators of the context, as far as its constructor fixes
    them: the directory of the descriptor and the arguments given to the
    exception handler; a [NULL] argument is [None]. *)
Record MinidumpDescriptor : Type := { directory : string }.

Inductive LibcurlWrapper : Type := new_LibcurlWrapper.

Inductive callback : Type := MinidumpCallback.

Record ExceptionHandler : Type := {
  descriptor : MinidumpDescriptor;
  filter : option callback;
  minidump_callback : option callback;
  callback_context : option callback;
  install_handler : bool;
  server_fd : Z;
}.

Record BacktraceHandlerContext : Type := {
  url_ : string;
  token_ : string;
  attributes_ : gmap string string;
  http_layer_ : LibcurlWrapper;
  descriptor_ : MinidumpDescriptor;
  handler_ : ExceptionHandler;
}.

(** The constructor [BacktraceHandlerContext(url, token, attributes)]. *)
Definition new_BacktraceHandlerContext
    (url token : string) (attributes : gmap string string)
    : BacktraceHandlerContext :=
  let d := {| directory := kDefaultDescriptorPath |} in
  {| url_ := url;
     token_ := token;
     attributes_ := attributes;
     http_layer_ := new_LibcurlWrapper;
     descriptor_ := d;
     handler_ := {| descriptor := d;
                    filter := None;
                    minidump_callback := Some MinidumpCallback;
                    callback_context := None;
                    install_handler := true;
                    server_fd := -1 |} |}.

(** The global [ctx_]; [nullptr] is [None]. *)
Definition global : Type := option BacktraceHandlerContext.

Definition isSuccessfulHttpCode (code : Z) : bool :=
  (200 <=? code)%Z && (code <? 300)%Z.

(** [Init] reads and writes [ctx_]: the value returned and the new
    [ctx_]. *)
Definition Init (url token : string) (attributes : gmap string string)
    (ctx_ : global) : bool * global :=
  match ctx_ with
  | Some _ => (false, ctx_)
  | None => (true, Some (new_BacktraceHandlerContext url token attributes))
  end.

(** A program that calls [Init] several times, one triple of arguments
    per call: the values returned, in order, and the final [ctx_]. *)
Fixpoint Init_calls (calls : list (string * string * gmap string string))
    (ctx_ : global) : list bool * global :=
  match calls with
  | [] => ([], ctx_)
  | (url, token, attributes) :: calls' =>
    let (r, ctx_') := Init url token attributes ctx_ in
    let (rs, ctx_'') := Init_calls calls' ctx_' in
    (r :: rs, ctx_'')
  end.

End BacktraceHandler.

(** ** The upload of a minidump

    [BacktraceHandlerContext::MinidumpCallback] talks to the HTTP layer of
    the context and to the file system, and writes to [std::cerr].  A call
    to a collaborator is answered by the environment, which may look at
    every call made and answered before; the callback runs in a world that
    keeps these calls with their answers, and what went to [std::cerr]. *)
Module BacktraceHandlerContext.

Import BacktraceHandler.

Inductive call : Type :=
  | LibcurlWrapper_Init
  | stat (path : string)
  | AddFormParameter (name value : string)
  | AddFile (upload_file_path basename : string)
  | SendRequest (url : string) (parameters : gmap string string).

(** The value returned, true for success ([stat] succeeds when it returns
    0), and what [SendRequest] leaves behind its three pointers. *)
Record answer : Type := {
  ok : bool;
  http_status_code : Z;
  http_response_header : string;
  http_response_body : string;
}.

(** The three messages, by what they carry. *)
Inductive diagnostic : Type :=
  | http_layer_init_failed
  | could_not_be_found (minidump_pathname : string)
  | failed_to_send (url : string) (http_status_code : Z)
      (http_response_header http_response_body : string).

Record world : Type := {
  history : list (call * answer);
  cerr : list diagnostic;
}.

Definition environment : Type := list (call * answer) → call → answer.

Definition io (A : Type) : Type := environment → world → A * world.

#[global] Instance io_ret : MRet io := λ A x E w, (x, w).

#[global] Instance io_bind : MBind io :=
  λ A B f m E w, let (a, w') := m E w in f a E w'.

Definition perform (c : call) : io answer :=
  λ E w,
    let a := E (history w) c in
    (a, {| history := history w ++ [(c, a)]; cerr := cerr w |}).

Definition write (d : diagnostic) : io unit :=
  λ E w, (tt, {| history := history w; cerr := cerr w ++ [d] |}).

(** A [std::map<string, string>] is walked in the order of its keys. *)
Definition key_le (a b : string * string) : Prop := String.le a.1 b.1.

#[global] Instance key_le_dec : RelDecision key_le.
Proof. intros a b. unfold key_le. apply _. Defined.

Definition entries (m : gmap string string) : list (string * string) :=
  merge_sort key_le (map_to_list m).

(** The [for] loop over the attributes: false when the callback returned
    false from inside it. *)
Fixpoint AddFormParameters (kvs : list (string * string)) : io bool :=
  match kvs with
  | [] => mret true
  | kv :: kvs' =>
    a ← perform (AddFormParameter kv.1 kv.2);
    if ok a then AddFormParameters kvs' else mret false
  end.

(** [minidump_pathname] is [descriptor.path()]; the global [ctx_] is only
    read. *)
Definition MinidumpCallback (minidump_pathname : string) (succeeded : bool)
    (ctx_ : global) : io bool :=
  match ctx_ with
  | None => mret false
  | Some ctx =>
    if succeeded then
      i ← perform LibcurlWrapper_Init;
      _ ← (if ok i then (mret tt : io unit)
           else write http_layer_init_failed);
      st ← perform (stat minidump_pathname);
      if ok st then
        let url := url_ ctx +:+ "/api/minidump/post" in
        t ← perform (AddFormParameter "token" (token_ ctx));
        if ok t then
          b ← AddFormParameters (entries (attributes_ ctx));
          if (b : bool) then
            f ← perform (AddFile minidump_pathname "upload_file_minidump");
            if ok f then
              r ← perform (SendRequest url ∅);
              if negb (ok r)
                 || negb (isSuccessfulHttpCode (http_status_code r)) then
                _ ← write (failed_to_send url (http_status_code r)
                             (http_response_header r)
                             (http_response_body r));
                mret false
              else mret succeeded
            else mret false
          else mret false
        else mret false
      else
        _ ← write (could_not_be_found minidump_pathname);
        mret false
    else mret succeeded
  end.

End BacktraceHandlerContext.

(** The same callback as the second copy of the file has it: the token
    goes into the URL, the attributes go to [SendRequest], and the value
    returned after the request is [send_success]. *)
Module part_001.

Import BacktraceHandler BacktraceHandlerContext.

Definition MinidumpCallback (minidump_pathname : string) (succeeded : bool)
    (ctx_ : global) : io bool :=
  match ctx_ with
  | None => mret false
  | Some ctx =>
    if succeeded then
      i ← perform LibcurlWrapper_Init;
      _ ← (if ok i then (mret tt : io unit)
           else write http_layer_init_failed);
      st ← perform (stat minidump_pathname);
      if ok st then
        let url :=
          url_ ctx +:+ "/post?format=minidump&token=" +:+ token_ ctx in
        f ← perform (AddFile minidump_pathname "upload_file_minidump");
        if ok f then
          r ← perform (SendRequest url (attributes_ ctx));
          _ ← (if negb (ok r)
                  || negb (isSuccessfulHttpCode (http_status_code r)) then
                 write (failed_to_send url (http_status_code r)
                          (http_response_header r)
                          (http_response_body r))
               else (mret tt : io unit));
          mret (ok r)
        else mret false
      else
        _ ← write (could_not_be_found minidump_pathname);
        mret false
    else mret succeeded
  end.

End part_001.

(** ** What the properties are stated with *)

(** [mem c s]: the character [c] occurs in [s]. *)
Fixpoint mem (c : ascii) (s : string) : bool :=
  match s with
  | "" => false
  | String a s' => (a =? c)%char || mem c s'
  end.

(** [without c s]: [s] with every [c] left out. *)
Fixpoint without (c : ascii) (s : string) : string :=
  match s with
  | "" => ""
  | String a s' => if (a =? c)%char then without c s' else String a (without c s')
  end.

(** The token that follows a '$': the characters up to the next '$', when
    there is one. *)
Definition token (rest : string) : option string :=
  let (l, e) := find rest "$" in
  match e with
  | "" => None
  | _ => Some l
  end.

(** The shape the pattern stands for, in the words of the specification:
    one or more characters among letters, digits, '_', '.', ':' and '$',
    then "::h", then exactly 16 lowercase hexadecimal digits. *)
Definition between (lo hi c : ascii) : bool :=
  (N_of_ascii lo <=? N_of_ascii c)%N && (N_of_ascii c <=? N_of_ascii hi)%N.

Definition is_letter (c : ascii) : bool :=
  between "a" "z" c || between "A" "Z" c.

Definition is_digit (c : ascii) : bool := between "0" "9" c.

Definition prefix_char (c : ascii) : bool :=
  is_letter c || is_digit c
  || (c =? "_")%char || (c =? ".")%char || (c =? ":")%char || (c =? "$")%char.

Definition hex_char (c : ascii) : bool := is_digit c || between "a" "f" c.

Fixpoint all (p : ascii → bool) (s : string) : bool :=
  match s with
  | "" => true
  | String a s' => p a && all p s'
  end.

(** [hashed rd prefix]: [rd] is [prefix], "::h" and a hash, and nothing
    else. *)
Definition hashed (rd prefix : string) : Prop :=
  ∃ hash,
    rd = prefix +:+ "::h" +:+ hash ∧
    prefix ≠ "" ∧ all prefix_char prefix = true ∧
    String.length hash = 16 ∧ all hex_char hash = true.

(** The two brackets of [re], what follows its first group, and the
    continuation [regex_match] ends with. *)
Definition prefix_set : list (ascii * ascii) :=
  [("a", "z"); ("A", "Z"); ("0", "9");
   ("_", "_"); (".", "."); (":", ":"); ("$", "$")]%char.

Definition hex_set : list (ascii * ascii) := [("a", "f"); ("0", "9")]%char.

Definition re_tail : Regex.regex :=
  Regex.Seq (Regex.Chr ":") (Regex.Seq (Regex.Chr ":") (Regex.Seq (Regex.Chr "h")
    (Regex.Seq (Regex.Group 2 (Regex.Rep 16 (Regex.Bracket hex_set)))
               Regex.Eol))).

Definition at_end : Regex.cont :=
  λ _ rest sm, match rest with "" => Some sm | _ => None end.

(** The groups of a match whose first group is [prefix]. *)
Definition groups (prefix : string) : Regex.smatch :=
  <[2 := (String.length prefix + 3, String.length prefix + 19)]>
    (<[1 := (0, String.length prefix)]> ∅).

(** ** Builds used in the examples *)

(** A platform demangler that knows one symbol and rejects the others. *)
Definition cxa_only (m d : string) : string → cxa_result :=
  λ mangled,
    if String.eqb mangled m then cxa_ok d else cxa_err cxa_invalid_name.

Definition linux_build (m d : string) : Build :=
  {| ANDROID := false; HAVE_RUST_DEMANGLE := false;
     cxa_demangle := cxa_only m d; rust_demangle := λ _, None |}.

Definition android_build : Build :=
  {| ANDROID := true; HAVE_RUST_DEMANGLE := false;
     cxa_demangle := λ _, cxa_err cxa_invalid_args;
     rust_demangle := λ _, None |}.

Definition rustc_build (f : string → option string) : Build :=
  {| ANDROID := false; HAVE_RUST_DEMANGLE := true;
     cxa_demangle := λ _, cxa_err cxa_invalid_name;
     rust_demangle := f |}.

(** ** What the further properties are stated with *)

(** A chain of scopes without the empty names it starts with. *)
Fixpoint skip_empty (names : list string) : list string :=
  match names with
  | "" :: names' => skip_empty names'
  | _ => names
  end.

(** The characters a name decoded by the fallback path is made of. *)
Definition name_char (c : ascii) : bool :=
  is_letter c || is_digit c || (c =? ".")%char || (c =? ":")%char.

(** The characters of the keys of the table. *)
Definition token_char (c : ascii) : bool := is_letter c || is_digit c.

(** The calls of an upload, in the order the callback makes them. *)
Definition upload_calls (ctx : BacktraceHandler.BacktraceHandlerContext)
    (minidump_pathname : string) : list BacktraceHandlerContext.call :=
  [BacktraceHandlerContext.LibcurlWrapper_Init;
   BacktraceHandlerContext.stat minidump_pathname;
   BacktraceHandlerContext.AddFormParameter
     "token" (BacktraceHandler.token_ ctx)]
  ++ ((λ kv, BacktraceHandlerContext.AddFormParameter kv.1 kv.2)
        <$> BacktraceHandlerContext.entries (BacktraceHandler.attributes_ ctx))
  ++ [BacktraceHandlerContext.AddFile minidump_pathname "upload_file_minidump";
      BacktraceHandlerContext.SendRequest
        (BacktraceHandler.url_ ctx +:+ "/api/minidump/post") ∅].

(** The calls of an upload in the second copy of the file. *)
Definition upload_calls_001 (ctx : BacktraceHandler.BacktraceHandlerContext)
    (minidump_pathname : string) : list BacktraceHandlerContext.call :=
  [BacktraceHandlerContext.LibcurlWrapper_Init;
   BacktraceHandlerContext.stat minidump_pathname;
   BacktraceHandlerContext.AddFile minidump_pathname "upload_file_minidump";
   BacktraceHandlerContext.SendRequest
     (BacktraceHandler.url_ ctx +:+ "/post?format=minidump&token="
        +:+ BacktraceHandler.token_ ctx)
     (BacktraceHandler.attributes_ ctx)].

(** What the environment answers when the calls [cs] are all made, one
    after the other, after the calls of [h]. *)
Fixpoint replay (E : BacktraceHandlerContext.environment)
    (h : list (BacktraceHandlerContext.call * BacktraceHandlerContext.answer))
    (cs : list BacktraceHandlerContext.call)
    : list (BacktraceHandlerContext.call * BacktraceHandlerContext.answer) :=
  match cs with
  | [] => []
  | c :: cs' => let a := E h c in (c, a) :: replay E (h ++ [(c, a)]) cs'
  end.

(** An answered call after which an upload goes on: the HTTP layer may
    fail to initialise, a request has to succeed with a status from 200 to
    299, any other call has to succeed. *)
Definition accepted
    (e : BacktraceHandlerContext.call * BacktraceHandlerContext.answer)
    : bool :=
  match e.1 with
  | BacktraceHandlerContext.LibcurlWrapper_Init => true
  | BacktraceHandlerContext.SendRequest _ _ =>
    BacktraceHandlerContext.ok e.2
    && BacktraceHandler.isSuccessfulHttpCode
         (BacktraceHandlerContext.http_status_code e.2)
  | _ => BacktraceHandlerContext.ok e.2
  end.

(** The same for the second copy of the file: the status of a request
    does not count. *)
Definition accepted_001
    (e : BacktraceHandlerContext.call * BacktraceHandlerContext.answer)
    : bool :=
  match e.1 with
  | BacktraceHandlerContext.LibcurlWrapper_Init => true
  | _ => BacktraceHandlerContext.ok e.2
  end.

(** The answered calls up to the first one that [acc] does not accept,
    that one included. *)
Fixpoint until_refused {A} (acc : A → bool) (evs : list A) : list A :=
  match evs with
  | [] => []
  | e :: evs' => if acc e then e :: until_refused acc evs' else [e]
  end.

(** What an answered call sends to [std::cerr]. *)
Definition diagnostic_of
    (e : BacktraceHandlerContext.call * BacktraceHandlerContext.answer)
    : list BacktraceHandlerContext.diagnostic :=
  match e.1 with
  | BacktraceHandlerContext.LibcurlWrapper_Init =>
    if BacktraceHandlerContext.ok e.2 then []
    else [BacktraceHandlerContext.http_layer_init_failed]
  | BacktraceHandlerContext.stat path =>
    if BacktraceHandlerContext.ok e.2 then []
    else [BacktraceHandlerContext.could_not_be_found path]
  | BacktraceHandlerContext.SendRequest url _ =>
    if accepted e then []
    else [BacktraceHandlerContext.failed_to_send url
            (BacktraceHandlerContext.http_status_code e.2)
            (BacktraceHandlerContext.http_response_header e.2)
            (BacktraceHandlerContext.http_response_body e.2)]
  | _ => []
  end.

(** The calls [cs] made in order up to the first one that [acc] refuses:
    the value returned and the world left behind. *)
Definition planned
    (acc : BacktraceHandlerContext.call * BacktraceHandlerContext.answer
           → bool)
    (cs : list BacktraceHandlerContext.call)
    : BacktraceHandlerContext.io bool :=
  λ E w,
    (forallb acc (replay E (BacktraceHandlerContext.history w) cs),
     {| BacktraceHandlerContext.history :=
          BacktraceHandlerContext.history w
          ++ until_refused acc
               (replay E (BacktraceHandlerContext.history w) cs);
        BacktraceHandlerContext.cerr :=
          BacktraceHandlerContext.cerr w
          ++ flat_map diagnostic_of
               (until_refused acc
                  (replay E (BacktraceHandlerContext.history w) cs)) |}).

(** An environment for the examples: it refuses the calls [refuse] picks
    and answers every request with the status [code]. *)
Definition answering (refuse : BacktraceHandlerContext.call → bool) (code : Z)
    : BacktraceHandlerContext.environment :=
  λ _ c, {| BacktraceHandlerContext.ok := negb (refuse c);
            BacktraceHandlerContext.http_status_code := code;
            BacktraceHandlerContext.http_response_header := "";
            BacktraceHandlerContext.http_response_body := "" |}.

Definition empty_world : BacktraceHandlerContext.world :=
  {| BacktraceHandlerContext.history := [];
     BacktraceHandlerContext.cerr := [] |}.

(** * Properties *)

(** ** Strings *)

Section strings.

Implicit Types (s t u : string) (c : ascii).

(** [String.append] is sealed against [simpl]; these two equations unfold
    it one step. *)
Lemma app_nil_l s : "" +:+ s = s.
Proof. reflexivity. Qed.

Lemma app_cons c s t : String c s +:+ t = String c (s +:+ t).
Proof. reflexivity. Qed.

Lemma app_nil_r s : s +:+ "" = s.
Proof. induction s as [|c s IH]; [done|]. by rewrite app_cons, IH. Qed.

Lemma app_assoc s t u : (s +:+ t) +:+ u = s +:+ t +:+ u.
Proof.
  induction s as [|c s IH]; [done|]. by rewrite !app_cons, IH.
Qed.

Lemma app_length s t :
  String.length (s +:+ t) = (String.length s + String.length t)%nat.
Proof.
  induction s as [|c s IH]; [done|]. rewrite app_cons. simpl. by rewrite IH.
Qed.

Lemma app_inv_length s1 s2 t1 t2 :
  s1 +:+ t1 = s2 +:+ t2 → String.length t1 = String.length t2 →
  s1 = s2 ∧ t1 = t2.
Proof.
  revert s2. induction s1 as [|c s1 IH]; intros [|d s2] Heq Hlen.
  - done.
  - exfalso. rewrite app_nil_l in Heq. subst t1.
    rewrite app_length in Hlen. simpl in Hlen. lia.
  - exfalso. rewrite app_nil_l in Heq. subst t2.
    rewrite app_length in Hlen. simpl in Hlen. lia.
  - rewrite !app_cons in Heq. injection Heq as -> Heq.
    destruct (IH _ Heq Hlen) as [-> ->]. done.
Qed.

Lemma substring_app_l s t :
  substring 0 (String.length s) (s +:+ t) = s.
Proof.
  induction s as [|c s IH].
  - by destruct t.
  - rewrite app_cons. simpl. by rewrite IH.
Qed.

End strings.

(** ** Qualified names *)

Lemma MakeQualifiedNameWithSeparator_nonempty parent separator name :
  parent ≠ "" →
  MakeQualifiedNameWithSeparator parent separator name
  = parent +:+ separator +:+ name.
Proof. by destruct parent. Qed.

(** C8. An empty parent gives the name back, with no separator, in every
    language; a non-empty parent is joined to the name with "::" in C++ and
    with "." in Java, Swift and Rust; the assembler language returns the
    name whatever the parent is. *)
Theorem MakeQualifiedName_separators :
  (∀ l name, MakeQualifiedName l "" name = name) ∧
  (∀ parent name, parent ≠ "" →
     MakeQualifiedName CPlusPlus parent name = parent +:+ "::" +:+ name) ∧
  (∀ l parent name, parent ≠ "" → l ∈ [Java; Swift; Rust] →
     MakeQualifiedName l parent name = parent +:+ "." +:+ name) ∧
  (∀ parent name, MakeQualifiedName Assembler parent name = name).
Proof.
  repeat split.
  - by intros [].
  - intros parent name Hne.
    by apply MakeQualifiedNameWithSeparator_nonempty.
  - intros l parent name Hne Hl.
    apply list_elem_of_In in Hl. simpl in Hl.
    destruct Hl as [<- | [<- | [<- | []]]];
      by apply MakeQualifiedNameWithSeparator_nonempty.
Qed.

Lemma MakeQualifiedName_separators_witness :
  MakeQualifiedName CPlusPlus "A" "B" = "A::B" ∧
  MakeQualifiedName Swift "A" "B" = "A.B".
Proof.
  destruct MakeQualifiedName_separators as (_ & Hcpp & Hdot & _).
  split.
  - apply (Hcpp "A" "B"). discriminate.
  - apply (Hdot Swift "A" "B"); [discriminate |].
    apply list_elem_of_In. simpl. auto.
Defined.

(** ** Swift and C++ *)

(** C7. The Swift operation succeeds on every input and hands the mangled
    name back as it is. *)
Theorem Swift_DemangleName_verbatim (s demangled : string) :
  SwiftLanguage.DemangleName s demangled = (kDemangleSuccess, s).
Proof. reflexivity. Qed.

(** C6. Without a platform demangler the C++ operation reports
    [kDontDemangle] and clears the output; with one, status zero gives
    success with the decoded string and any other status gives failure
    with the output cleared. *)
Theorem CPP_DemangleName_outcomes (B : Build) (mangled demangled : string) :
  (ANDROID B = true →
     CPPLanguage.DemangleName B mangled demangled = (kDontDemangle, "")) ∧
  (ANDROID B = false → cxa_status (cxa_demangle B mangled) = 0%Z →
     ∃ decoded, cxa_demangle B mangled = cxa_ok decoded ∧
       CPPLanguage.DemangleName B mangled demangled
       = (kDemangleSuccess, decoded)) ∧
  (ANDROID B = false → cxa_status (cxa_demangle B mangled) ≠ 0%Z →
     CPPLanguage.DemangleName B mangled demangled = (kDemangleFailure, "")).
Proof.
  unfold CPPLanguage.DemangleName. repeat split.
  - by intros ->.
  - intros -> Hst. destruct (cxa_demangle B mangled) as [d|[]];
      [by exists d | done..].
  - intros -> Hst. by destruct (cxa_demangle B mangled) as [d|[]].
Qed.

Lemma CPP_DemangleName_outcomes_witness :
  CPPLanguage.DemangleName android_build "_Z1fv" "old" = (kDontDemangle, "") ∧
  (∃ decoded, cxa_only "_Z1fv" "f()" "_Z1fv" = cxa_ok decoded ∧
     CPPLanguage.DemangleName (linux_build "_Z1fv" "f()") "_Z1fv" "old"
     = (kDemangleSuccess, decoded)) ∧
  CPPLanguage.DemangleName (linux_build "_Z1fv" "f()") "_Z" "old"
  = (kDemangleFailure, "").
Proof.
  split; [|split].
  - apply (CPP_DemangleName_outcomes android_build "_Z1fv" "old").
    reflexivity.
  - apply (CPP_DemangleName_outcomes (linux_build "_Z1fv" "f()") "_Z1fv" "old");
      reflexivity.
  - apply (CPP_DemangleName_outcomes (linux_build "_Z1fv" "f()") "_Z" "old");
      [reflexivity | discriminate].
Defined.

(** ** The Backtrace handler *)

Lemma Init_calls_installed c calls :
  BacktraceHandler.Init_calls calls (Some c)
  = (replicate (length calls) false, Some c).
Proof.
  induction calls as [|[[url token] attributes] calls IH]; [done|].
  simpl. by rewrite IH.
Qed.

(** C10. [Init] returns true exactly when no context is installed, and
    then installs one built from its arguments; with a context installed it
    returns false and leaves that context as it is, so every call after
    the first returns false and the first context stays. *)
Theorem Init_installs_once
    (url token : string) (attributes : gmap string string) :
  let c := BacktraceHandler.new_BacktraceHandlerContext url token attributes in
  BacktraceHandler.Init url token attributes None = (true, Some c) ∧
  BacktraceHandler.url_ c = url ∧
  BacktraceHandler.token_ c = token ∧
  BacktraceHandler.attributes_ c = attributes ∧
  (∀ ctx_, (BacktraceHandler.Init url token attributes ctx_).1 = true
           ↔ ctx_ = None) ∧
  (∀ c' url' token' attributes',
     BacktraceHandler.Init url' token' attributes' (Some c')
     = (false, Some c')) ∧
  (∀ later,
     BacktraceHandler.Init_calls ((url, token, attributes) :: later) None
     = (true :: replicate (length later) false, Some c)).
Proof.
  intros c. split_and!; try done.
  - intros ctx_. by destruct ctx_.
  - intros later. simpl. by rewrite Init_calls_installed.
Qed.

(** ** The scan of the Rust fallback decoder *)

Section scan.

Implicit Types (it s l e o : string) (c : ascii).

Lemma mem_app c s t : mem c (s +:+ t) = mem c s || mem c t.
Proof.
  induction s as [|a s IH]; [done|].
  rewrite app_cons. simpl. rewrite IH. by rewrite orb_assoc.
Qed.

Lemma find_found it c l a e : find it c = (l, String a e) → mem c it = true.
Proof.
  revert l. induction it as [|b it IH]; intros l; simpl; [done|].
  destruct (b =? c)%char; [done|].
  destruct (find it c) as [l' e'] eqn:Hf. intros [= <- ->].
  by apply (IH l').
Qed.

Lemma find_not_found it c : mem c it = false → find it c = (it, "").
Proof.
  induction it as [|b it IH]; simpl; [done|].
  destruct (b =? c)%char; [done|]. simpl. intros H. by rewrite (IH H).
Qed.

Lemma find_mem it c :
  mem c it = true → ∃ l e, find it c = (l, String c e).
Proof.
  induction it as [|b it IH]; simpl; [done|].
  destruct (b =? c)%char eqn:E.
  - apply Ascii.eqb_eq in E as ->. by eexists _, _.
  - simpl. intros (l & e & ->)%IH. by eexists _, _.
Qed.

(** A '$' has no token after it exactly when no '$' comes later. *)
Lemma token_None rest : token rest = None ↔ mem "$" rest = false.
Proof.
  unfold token. split.
  - intros H. destruct (mem "$" rest) eqn:Hm; [|done].
    apply find_mem in Hm as (l & e & Hf). by rewrite Hf in H.
  - intros H. by rewrite (find_not_found _ _ H).
Qed.

(** No key of the table is empty. *)
Lemma map_empty_key : map !! "" = None.
Proof. reflexivity. Qed.

(** When [rust_replace_dollar] succeeds at the iterator [String a it],
    a '$' is still ahead of the caller at [it]: the token is not empty,
    so the '$' that closes it comes after [a]. *)
Lemma rust_replace_dollar_ahead a it o o' :
  rust_replace_dollar (String a it) o = (true, o') → mem "$" it = true.
Proof.
  unfold rust_replace_dollar. cbn [find].
  destruct (a =? "$")%char.
  - by rewrite map_empty_key.
  - destruct (find it "$") as [l e] eqn:Hf. destruct e as [|b e]; [done|].
    intros _. by apply (find_found _ _ _ _ _ Hf).
Qed.

(** The stream only grows, and [rust_replace_dollar] leaves it alone
    when it fails. *)
Lemma rust_replace_dollar_fail it o o' :
  rust_replace_dollar it o = (false, o') → o' = o.
Proof.
  unfold rust_replace_dollar. destruct (find it "$") as [l [|b e]].
  - by intros [= <-].
  - destruct (map !! l); by intros [= <-].
Qed.

(** A '$' anywhere ahead of the iterator makes the loop return false:
    after a token is replaced the iterator of the loop is still inside
    the token, so the '$' that closed it is read as one that opens a
    token, and the last '$' of the string has nothing to close it. *)
Lemma scan_loop_dollar_fails it o :
  mem "$" it = true → (scan_loop it o).1 = false.
Proof.
  remember (String.length it) as n eqn:Hn.
  revert it o Hn. induction (lt_wf n) as [n _ IH]. intros it o -> Hm.
  destruct it as [|c it1]; [done|]. simpl in *.
  destruct (c =? "_")%char eqn:Hu.
  { apply Ascii.eqb_eq in Hu as ->. simpl in Hm.
    eapply IH; [|done..]. lia. }
  destruct (c =? "$")%char eqn:Hd.
  - destruct it1 as [|a it2]; [done|].
    destruct (rust_replace_dollar (String a it2) o) as [[] o'] eqn:Hr; [|done].
    apply rust_replace_dollar_ahead in Hr.
    eapply IH; [|done..]. simpl. lia.
  - simpl in Hm. eapply IH; [|done..]. lia.
Qed.

(** Without a '$' the loop returns true, having written every character
    but the underscores. *)
Lemma scan_loop_no_dollar it o :
  mem "$" it = false → scan_loop it o = (true, o +:+ without "_" it).
Proof.
  revert o. induction it as [|c it IH]; intros o Hm; simpl in *.
  - by rewrite app_nil_r.
  - apply orb_false_iff in Hm as [Hd Hm]. rewrite Hd.
    destruct (c =? "_")%char; [by apply IH|].
    rewrite (IH _ Hm). unfold put. by rewrite app_assoc.
Qed.

End scan.

(** ** The pattern of the Rust fallback decoder *)

Section regex.

Import Regex.

Implicit Types (r : regex) (rs : list (ascii * ascii)) (k : cont).
Implicit Types (sm x : smatch) (i j n : nat) (rest p t u h : string).

Lemma all_ext (f g : ascii → bool) s :
  (∀ c, f c = g c) → all f s = all g s.
Proof. intros E. induction s as [|a s IH]; [done|]. simpl. by rewrite E, IH. Qed.

(** *** The equations of the matcher *)

Lemma bt_Seq r1 r2 i rest sm k :
  bt (Seq r1 r2) i rest sm k
  = bt r1 i rest sm (λ i' rest' sm', bt r2 i' rest' sm' k).
Proof. reflexivity. Qed.

Lemma bt_Group g r i rest sm k :
  bt (Group g r) i rest sm k
  = bt r i rest sm (λ i' rest' sm', k i' rest' (<[g := (i, i')]> sm')).
Proof. reflexivity. Qed.

Lemma bt_Plus r i rest sm k :
  bt (Plus r) i rest sm k = greedy (bt r) (String.length rest) i rest sm k.
Proof. reflexivity. Qed.

Lemma bt_Rep n r i rest sm k :
  bt (Rep n r) i rest sm k = times (bt r) n i rest sm k.
Proof. reflexivity. Qed.

Lemma bt_Bol rest sm k : bt Bol 0 rest sm k = k 0 rest sm.
Proof. reflexivity. Qed.

Lemma bt_Eol i rest sm k x :
  bt Eol i rest sm k = Some x ↔ rest = "" ∧ k i "" sm = Some x.
Proof.
  destruct rest; simpl; split; try done.
  - by intros [_ H].
  - by intros [? _].
Qed.

Lemma bt_Chr c i rest sm k x :
  bt (Chr c) i rest sm k = Some x
  ↔ ∃ rest', rest = String c rest' ∧ k (S i) rest' sm = Some x.
Proof.
  destruct rest as [|a rest']; simpl.
  { split; [done|]. by intros (? & ? & _). }
  destruct (a =? c)%char eqn:E.
  - apply Ascii.eqb_eq in E as ->. split.
    + intros H. by exists rest'.
    + by intros (? & [= <-] & H).
  - apply Ascii.eqb_neq in E. split; [done|].
    intros (? & [= -> _] & _). done.
Qed.

Lemma bt_Bracket rs i rest sm k x :
  bt (Bracket rs) i rest sm k = Some x
  ↔ ∃ a rest', rest = String a rest' ∧ in_bracket a rs = true
               ∧ k (S i) rest' sm = Some x.
Proof.
  destruct rest as [|a rest']; simpl.
  { split; [done|]. by intros (? & ? & ? & _). }
  destruct (in_bracket a rs) eqn:E; split.
  - intros H. by exists a, rest'.
  - by intros (? & ? & [= <- <-] & _ & H).
  - done.
  - intros (? & ? & [= <- <-] & E' & _). congruence.
Qed.

Lemma greedy_eq (m : matcher) n i rest sm k :
  greedy m n i rest sm k
  = m i rest sm (λ i' rest' sm',
      match n with
      | O => k i' rest' sm'
      | S n' =>
        match greedy m n' i' rest' sm' k with
        | Some r => Some r
        | None => k i' rest' sm'
        end
      end).
Proof. by destruct n. Qed.

Lemma bt_Bracket_eq rs i rest sm k :
  bt (Bracket rs) i rest sm k
  = match rest with
    | String a rest' => if in_bracket a rs then k (S i) rest' sm else None
    | "" => None
    end.
Proof. reflexivity. Qed.

Lemma times_S (m : matcher) n i rest sm k :
  times m (S n) i rest sm k
  = m i rest sm (λ i' rest' sm', times m n i' rest' sm' k).
Proof. reflexivity. Qed.

(** *** Quantifiers over a bracket *)

(** Whatever a greedy bracket returns, its continuation returned after
    a non-empty run of characters of the bracket. *)
Lemma greedy_bracket_sound rs n i rest sm k x :
  greedy (bt (Bracket rs)) n i rest sm k = Some x →
  ∃ p t, rest = p +:+ t ∧ p ≠ "" ∧
         all (λ c, in_bracket c rs) p = true ∧
         k (i + String.length p) t sm = Some x.
Proof.
  revert i rest. induction n as [|n IH]; intros i rest;
    rewrite greedy_eq, bt_Bracket; intros (a & rest' & -> & Ha & Hk).
  - exists (String a ""), rest'. simpl. rewrite Ha, Nat.add_1_r. done.
  - destruct (greedy (bt (Bracket rs)) n (S i) rest' sm k) as [y|] eqn:G.
    + injection Hk as ->. apply IH in G as (p & t & -> & Hp & Hall & Hk).
      exists (String a p), t. simpl. rewrite Ha, Hall, Nat.add_succ_r. done.
    + exists (String a ""), rest'. simpl. rewrite Ha, Nat.add_1_r. done.
Qed.

(** The bound on the iterations of a greedy bracket is never what stops
    it: one more iteration allowed changes nothing. *)
Lemma greedy_bracket_bound rs n : ∀ i rest sm k,
  String.length rest ≤ S n →
  greedy (bt (Bracket rs)) (S n) i rest sm k
  = greedy (bt (Bracket rs)) n i rest sm k.
Proof.
  induction n as [|n IH]; intros i rest sm k Hn.
  - rewrite (greedy_eq _ 1), (greedy_eq _ 0), !bt_Bracket_eq.
    destruct rest as [|a [|b rest]]; [done| |simpl in Hn; lia].
    by destruct (in_bracket a rs).
  - rewrite (greedy_eq _ (S (S n))), (greedy_eq _ (S n)), !bt_Bracket_eq.
    destruct rest as [|a rest]; [done|].
    destruct (in_bracket a rs); [|done].
    rewrite IH; [done | simpl in Hn; lia].
Qed.

(** A greedy bracket finds the split at which its continuation succeeds,
    when the continuation pins down how much input it is given. *)
Lemma greedy_bracket_complete rs p : ∀ n i t sm k x,
  p ≠ "" → all (λ c, in_bracket c rs) p = true →
  String.length p ≤ S n →
  (∀ j u y, k j u sm = Some y → String.length u = String.length t) →
  k (i + String.length p) t sm = Some x →
  greedy (bt (Bracket rs)) n i (p +:+ t) sm k = Some x.
Proof.
  induction p as [|a p IH]; intros n i t sm k x Hne Hall Hn Hlen Hk;
    [done|].
  simpl in Hall. apply andb_true_iff in Hall as [Ha Hall].
  rewrite greedy_eq, app_cons. apply bt_Bracket.
  exists a, (p +:+ t). split_and!; [done..|].
  simpl in Hk. rewrite Nat.add_succ_r in Hk.
  destruct p as [|b p].
  - rewrite app_nil_l. rewrite Nat.add_0_r in Hk.
    destruct n as [|n]; [done|].
    destruct (greedy (bt (Bracket rs)) n (S i) t sm k) as [y|] eqn:G; [|done].
    exfalso. apply greedy_bracket_sound in G as (q & u & E & Hq & _ & Hu).
    apply Hlen in Hu. apply (f_equal String.length) in E.
    rewrite app_length in E. destruct q; [done|]. simpl in E. lia.
  - destruct n as [|n]; [simpl in Hn; lia|].
    rewrite (IH n (S i) t sm k x); [done..| |done|done].
    simpl in *. lia.
Qed.

Lemma times_bracket rs n : ∀ i rest sm k x,
  times (bt (Bracket rs)) n i rest sm k = Some x ↔
  ∃ h t, rest = h +:+ t ∧ String.length h = n ∧
         all (λ c, in_bracket c rs) h = true ∧
         k (i + n) t sm = Some x.
Proof.
  induction n as [|n IH]; intros i rest sm k x.
  - simpl. rewrite Nat.add_0_r. split.
    + intros Hk. by exists "", rest.
    + intros (h & t & -> & Hh & _ & Hk). by destruct h.
  - rewrite times_S, bt_Bracket. split.
    + intros (a & rest' & -> & Ha & Hk).
      apply IH in Hk as (h & t & -> & <- & Hall & Hk).
      exists (String a h), t. simpl. rewrite Ha, Hall, Nat.add_succ_r. done.
    + intros (h & t & -> & Hh & Hall & Hk).
      destruct h as [|a h]; [done|]. simpl in *.
      apply andb_true_iff in Hall as [Ha Hall].
      exists a, (h +:+ t). split_and!; [done..|].
      apply IH. exists h, t. rewrite Nat.add_succ_r in Hk.
      split_and!; [done|lia|done..].
Qed.

End regex.

Section pattern.

Import Regex.

Implicit Types (sm x : smatch) (i j n : nat) (rd prefix hash u h : string).

Lemma in_prefix_set c : in_bracket c prefix_set = prefix_char c.
Proof. destruct c as [[] [] [] [] [] [] [] []]; reflexivity. Qed.

Lemma in_hex_set c : in_bracket c hex_set = hex_char c.
Proof. destruct c as [[] [] [] [] [] [] [] []]; reflexivity. Qed.

Lemma regex_match_re_eq rd :
  regex_match re rd
  = greedy (bt (Bracket prefix_set)) (String.length rd) 0 rd ∅
      (λ i' rest' sm', bt re_tail i' rest' (<[1 := (0, i')]> sm') at_end).
Proof. reflexivity. Qed.

(** What follows the first group matches "::h" and 16 hexadecimal
    digits up to the end of the input, and nothing else. *)
Lemma re_tail_match i u sm x :
  bt re_tail i u sm at_end = Some x ↔
  ∃ h, u = "::h" +:+ h ∧ String.length h = 16 ∧ all hex_char h = true ∧
       x = <[2 := (i + 3, i + 19)]> sm.
Proof.
  unfold re_tail. split.
  - rewrite bt_Seq, bt_Chr. intros (u1 & -> & H). cbv beta in H.
    rewrite bt_Seq, bt_Chr in H. destruct H as (u2 & -> & H). cbv beta in H.
    rewrite bt_Seq, bt_Chr in H. destruct H as (u3 & -> & H). cbv beta in H.
    rewrite bt_Seq, bt_Group, bt_Rep in H.
    apply times_bracket in H as (h & t & -> & Hlen & Hall & Hk).
    apply bt_Eol in Hk as [-> Hk]. simpl in Hk. injection Hk as <-.
    exists h. rewrite app_nil_r.
    rewrite (all_ext _ _ _ in_hex_set) in Hall.
    split_and!; [done..|].
    by replace (i + 3) with (S (S (S i))) by lia;
       replace (i + 19) with (S (S (S i)) + 16) by lia.
  - intros (h & -> & Hlen & Hall & ->).
    rewrite bt_Seq. apply bt_Chr. eexists; split; [reflexivity|].
    rewrite bt_Seq. apply bt_Chr. eexists; split; [reflexivity|].
    rewrite bt_Seq. apply bt_Chr. eexists; split; [reflexivity|].
    rewrite bt_Seq, bt_Group, bt_Rep. apply times_bracket.
    exists h, "". rewrite app_nil_r.
    rewrite (all_ext _ _ _ in_hex_set).
    split_and!; [done..|]. apply bt_Eol. split; [done|]. simpl.
    by replace (i + 3) with (S (S (S i))) by lia;
       replace (i + 19) with (S (S (S i)) + 16) by lia.
Qed.

(** The backtracking matcher accepts exactly the strings of the shape
    [hashed], and its first group is the prefix. *)
Lemma regex_match_re rd sm :
  regex_match re rd = Some sm ↔ ∃ prefix, hashed rd prefix ∧ sm = groups prefix.
Proof.
  rewrite regex_match_re_eq. split.
  - intros H. apply greedy_bracket_sound in H as (p & t & -> & Hp & Hall & Hk).
    apply re_tail_match in Hk as (h & -> & Hlen & Hh & ->).
    rewrite (all_ext _ _ _ in_prefix_set) in Hall.
    exists p. split; [by exists h|done].
  - intros (p & (h & -> & Hp & Hall & Hlen & Hh) & ->).
    apply greedy_bracket_complete.
    + done.
    + by rewrite (all_ext _ _ _ in_prefix_set).
    + rewrite app_length. lia.
    + intros j u y (h' & -> & Hlen' & _)%re_tail_match.
      rewrite !app_length. simpl. lia.
    + apply re_tail_match. by exists h.
Qed.

Lemma str_groups prefix u : str (groups prefix) 1 (prefix +:+ u) = prefix.
Proof.
  unfold str, groups. rewrite lookup_insert_ne, lookup_insert_eq by done.
  rewrite Nat.sub_0_r. apply substring_app_l.
Qed.

(** The prefix of a string of that shape is determined by the string. *)
Lemma hashed_inj rd prefix prefix' :
  hashed rd prefix → hashed rd prefix' → prefix = prefix'.
Proof.
  intros (h & -> & _ & _ & Hlen & _) (h' & E & _ & _ & Hlen' & _).
  apply app_inv_length in E as [E _]; [done|].
  rewrite !app_length. simpl. lia.
Qed.

End pattern.

(** ** The Rust operation *)

Section rust.

Implicit Types (B : Build) (mangled demangled rd prefix pre rest o : string).

(** The fallback path on a decoded string of the shape [hashed]: the
    scan runs over the prefix alone. *)
Lemma Rust_fallback_hashed B mangled demangled rd prefix :
  HAVE_RUST_DEMANGLE B = false →
  cxa_demangle B mangled = cxa_ok rd →
  hashed rd prefix →
  RustLanguage.DemangleName B mangled demangled
  = let (ok, o) := rust_scan_replace prefix "" in
    if ok then (kDemangleSuccess, o) else (kDemangleFailure, "").
Proof.
  intros HB Hcxa Hrd. unfold RustLanguage.DemangleName. rewrite HB, Hcxa.
  assert (Regex.regex_match Regex.re rd = Some (groups prefix)) as ->.
  { apply regex_match_re. by exists prefix. }
  destruct Hrd as (hash & -> & _). by rewrite str_groups.
Qed.

Lemma Rust_fallback_not_hashed B mangled demangled rd :
  HAVE_RUST_DEMANGLE B = false →
  cxa_demangle B mangled = cxa_ok rd →
  (∀ prefix, ¬ hashed rd prefix) →
  RustLanguage.DemangleName B mangled demangled = (kDemangleFailure, "").
Proof.
  intros HB Hcxa Hrd. unfold RustLanguage.DemangleName. rewrite HB, Hcxa.
  destruct (Regex.regex_match Regex.re rd) as [sm|] eqn:Hm; [|done].
  apply regex_match_re in Hm as (prefix & Hp & _). by destruct (Hrd prefix).
Qed.

End rust.

(** C5. Once the platform demangler has succeeded, a decoded string that
    is a non-empty run of letters, digits, '_', '.', ':' and '$', then
    "::h", then exactly 16 lowercase hexadecimal digits, is accepted and
    only the run before "::h" goes through the scan; every other decoded
    string gives failure. *)
Theorem Rust_fallback_pattern (B : Build) (mangled demangled rd : string) :
  HAVE_RUST_DEMANGLE B = false →
  cxa_demangle B mangled = cxa_ok rd →
  (∀ prefix, hashed rd prefix →
     RustLanguage.DemangleName B mangled demangled
     = let (ok, o) := rust_scan_replace prefix "" in
       if ok then (kDemangleSuccess, o) else (kDemangleFailure, "")) ∧
  ((∀ prefix, ¬ hashed rd prefix) →
     RustLanguage.DemangleName B mangled demangled = (kDemangleFailure, "")).
Proof.
  intros HB Hcxa. split.
  - intros prefix. by apply Rust_fallback_hashed.
  - by apply Rust_fallback_not_hashed.
Qed.

Lemma Rust_fallback_pattern_witness :
  RustLanguage.DemangleName
    (linux_build "_ZN3foo3bar17h0123456789abcdefE"
                 "foo::bar::h0123456789abcdef")
    "_ZN3foo3bar17h0123456789abcdefE" "old"
  = (kDemangleSuccess, "foo::bar") ∧
  RustLanguage.DemangleName
    (linux_build "_ZN3foo3barE" "foo::bar") "_ZN3foo3barE" "old"
  = (kDemangleFailure, "").
Proof.
  split.
  - destruct (Rust_fallback_pattern
                (linux_build "_ZN3foo3bar17h0123456789abcdefE"
                             "foo::bar::h0123456789abcdef")
                "_ZN3foo3bar17h0123456789abcdefE" "old"
                "foo::bar::h0123456789abcdef" eq_refl eq_refl) as [Hyes _].
    apply (Hyes "foo::bar").
    exists "0123456789abcdef". split_and!; [reflexivity | discriminate |
      reflexivity | reflexivity | reflexivity].
  - destruct (Rust_fallback_pattern
                (linux_build "_ZN3foo3barE" "foo::bar") "_ZN3foo3barE" "old"
                "foo::bar" eq_refl eq_refl) as [_ Hno].
    apply Hno.
    intros prefix (hash & E & _ & _ & Hlen & _).
    apply (f_equal String.length) in E. rewrite !app_length in E.
    simpl in E. lia.
Defined.

(** C4. At a '$' whose token is not in the table, or that no later '$'
      closes, the loop returns false at once, with nothing more written;
      wherever such a '$' stands in the captured prefix the scan returns
      false and the operation reports failure with an empty output; so does
      a '$' that ends the prefix. *)
Theorem Rust_fallback_bad_dollar (pre rest : string) :
    token rest = None ∨ (∃ l, token rest = Some l ∧ map !! l = None) →
    (∀ o, scan_loop (String "$" rest) o = (false, o)) ∧
    (∀ o, (rust_scan_replace (pre +:+ String "$" rest) o).1 = false) ∧
    (∀ B mangled demangled rd,
       HAVE_RUST_DEMANGLE B = false →
       cxa_demangle B mangled = cxa_ok rd →
       hashed rd (pre +:+ String "$" rest) →
       RustLanguage.DemangleName B mangled demangled = (kDemangleFailure, "")) ∧
    (rest = "" → ∀ o, (rust_scan_replace (pre +:+ "$") o).1 = false).
Proof.
    intros Htok.
    assert (∀ o, (rust_scan_replace (pre +:+ String "$" rest) o).1 = false)
      as Hscan.
    { intros o. apply scan_loop_dollar_fails.
      rewrite mem_app. simpl. by rewrite orb_true_r. }
    split_and!; [|done| |by intros ->].
    - intros o. destruct rest as [|a rest]; [done|].
      simpl. unfold rust_replace_dollar. unfold token in Htok.
      destruct (find (String a rest) "$") as [l [|b e]]; [done|].
      destruct Htok as [[=] | (l' & [= <-] & ->)]. done.
    - intros B mangled demangled rd HB Hcxa Hrd.
      rewrite (Rust_fallback_hashed _ _ _ _ _ HB Hcxa Hrd).
      specialize (Hscan "").
      by destruct (rust_scan_replace (pre +:+ String "$" rest) "") as [[] o].
Qed.

Lemma Rust_fallback_bad_dollar_witness :
    scan_loop "$zz$bar" "foo" = (false, "foo") ∧
    (rust_scan_replace "foo$zz$bar" "").1 = false ∧
    RustLanguage.DemangleName
      (linux_build "_ZN10foo$zz$bar17h0123456789abcdefE"
                   "foo$zz$bar::h0123456789abcdef")
      "_ZN10foo$zz$bar17h0123456789abcdefE" "old"
    = (kDemangleFailure, "") ∧
    (rust_scan_replace "foo$" "").1 = false.
Proof.
    assert (token "zz$bar" = None
            ∨ (∃ l, token "zz$bar" = Some l ∧ map !! l = None))
      as Hzz by (right; exists "zz"; split; reflexivity).
    assert (token "" = None ∨ (∃ l, token "" = Some l ∧ map !! l = None))
      as Hend by (left; reflexivity).
    destruct (Rust_fallback_bad_dollar "foo" "zz$bar" Hzz)
      as (Hhere & Hscan & Hname & _).
    destruct (Rust_fallback_bad_dollar "foo" "" Hend) as (_ & _ & _ & Hlast).
    split_and!.
    - apply Hhere.
    - apply Hscan.
    - apply (Hname (linux_build "_ZN10foo$zz$bar17h0123456789abcdefE"
                                "foo$zz$bar::h0123456789abcdef")
               "_ZN10foo$zz$bar17h0123456789abcdefE" "old"
               "foo$zz$bar::h0123456789abcdef" eq_refl eq_refl).
      exists "0123456789abcdef". split_and!; [reflexivity | discriminate |
        reflexivity | reflexivity | reflexivity].
    - apply Hlast. reflexivity.
Defined.

(** C1. On the prefix foo$RF$bar the scan writes '&' for the token RF, but
    it resumes at the second character of the token, not after the '$'
    that closes it: it writes 'F', takes the closing '$' for the start of
    another token and returns false, and the operation fails where foo&bar
    was to come out.  The same happens at $u20$, and whatever stands
    before and after the token. *)
Theorem rust_scan_replace_resumes_inside_token :
  rust_scan_replace "foo$RF$bar" "" = (false, "foo&F") ∧
  rust_scan_replace "a$u20$b" "" = (false, "a 20") ∧
  RustLanguage.DemangleName
    (linux_build "_ZN10foo$RF$bar17h0123456789abcdefE"
                 "foo$RF$bar::h0123456789abcdef")
    "_ZN10foo$RF$bar17h0123456789abcdefE" ""
  = (kDemangleFailure, "") ∧
  (∀ pre post o, (rust_scan_replace (pre +:+ "$RF$" +:+ post) o).1 = false) ∧
  (∀ pre post o, (rust_scan_replace (pre +:+ "$u20$" +:+ post) o).1 = false).
Proof.
  split_and!; try reflexivity;
    intros pre post o; apply scan_loop_dollar_fails;
    rewrite mem_app, app_cons; simpl; by rewrite orb_true_r.
Qed.

(** C2. An underscore of the prefix was to reach the output unchanged.
    The underscore case of the loop leaves the switch before the write of
    the default case, so the underscore is read and nothing is written
    for it: a_b comes out as ab and write_char as writechar, a_b and ab
    give the same name, and the prefix made of one underscore gives
    success with an empty name, although the pattern of the same function
    lets underscores through. *)
Theorem rust_scan_replace_drops_underscore :
  rust_scan_replace "a_b" "" = (true, "ab") ∧
  rust_scan_replace "a_b" "" ≠ (true, "a_b") ∧
  scan_loop "_b" "a" ≠ scan_loop "b" (put "a" "_") ∧
  rust_scan_replace "a_b" "" = rust_scan_replace "ab" "" ∧
  RustLanguage.DemangleName
    (linux_build "_ZN10write_char17h0123456789abcdefE"
                 "write_char::h0123456789abcdef")
    "_ZN10write_char17h0123456789abcdefE" ""
  = (kDemangleSuccess, "writechar") ∧
  RustLanguage.DemangleName
    (linux_build "_ZN1_17h0123456789abcdefE" "_::h0123456789abcdef")
    "_ZN1_17h0123456789abcdefE" ""
  = (kDemangleSuccess, "") ∧
  (∀ it o, scan_loop (String "_" it) o = scan_loop it o).
Proof. split_and!; try reflexivity; discriminate. Qed.

(** Where the other paths stand on the output of a call that does not
    succeed: the C++ operation and the Rust fallback leave it empty. *)
Lemma CPP_DemangleName_clears (B : Build) (mangled demangled : string) :
  (CPPLanguage.DemangleName B mangled demangled).1 ≠ kDemangleSuccess →
  (CPPLanguage.DemangleName B mangled demangled).2 = "".
Proof.
  unfold CPPLanguage.DemangleName.
  destruct (ANDROID B); [done|]. by destruct (cxa_demangle B mangled).
Qed.

Lemma Rust_fallback_clears (B : Build) (mangled demangled : string) :
  HAVE_RUST_DEMANGLE B = false →
  (RustLanguage.DemangleName B mangled demangled).1 ≠ kDemangleSuccess →
  (RustLanguage.DemangleName B mangled demangled).2 = "".
Proof.
  unfold RustLanguage.DemangleName. intros ->.
  destruct (cxa_demangle B mangled) as [rd|]; [|done].
  destruct (Regex.regex_match Regex.re rd) as [sm|]; [|done].
  by destruct (rust_scan_replace (Regex.str sm 1 rd) "") as [[] o].
Qed.

(** C3. With the external Rust demangler built in, a call that it rejects
    reports failure and returns without touching the output: the caller's
    string is still there, where the C++ operation and the fallback path
    hand back the empty string on the same call. *)
Theorem Rust_preferred_failure_keeps_output :
  RustLanguage.DemangleName (rustc_build (λ _, None)) "_ZN3fooE" "stale"
  = (kDemangleFailure, "stale") ∧
  (∀ mangled demangled,
     RustLanguage.DemangleName (rustc_build (λ _, None)) mangled demangled
     = (kDemangleFailure, demangled)) ∧
  CPPLanguage.DemangleName (linux_build "_Z1fv" "f()") "_ZN3fooE" "stale"
  = (kDemangleFailure, "") ∧
  RustLanguage.DemangleName (linux_build "_Z1fv" "f()") "_ZN3fooE" "stale"
  = (kDemangleFailure, "").
Proof. split_and!; reflexivity. Qed.

(** C9, as the specification has it: with the external demangler, success
    exactly when it returns a string that is not empty.  An empty string
    that is not [nullptr] is a success too. *)
Lemma Rust_preferred_empty_string :
  RustLanguage.DemangleName (rustc_build (λ _, Some "")) "" "old"
  = (kDemangleSuccess, "") ∧
  ¬ ((RustLanguage.DemangleName (rustc_build (λ _, Some "")) "" "old").1
     = kDemangleSuccess
     ↔ ∃ rd, rust_demangle (rustc_build (λ _, Some "")) "" = Some rd ∧ rd ≠ "").
Proof.
  split; [reflexivity|]. intros [H _].
  destruct (H eq_refl) as (rd & [= <-] & Hne). by apply Hne.
Qed.

(** C9, amended. With the external Rust demangler built in, the operation
    succeeds exactly when the demangler returns a string rather than
    [nullptr], empty or not, and that string is the output; it fails
    otherwise. *)
Theorem Rust_preferred_outcome (B : Build) (mangled demangled : string) :
  HAVE_RUST_DEMANGLE B = true →
  ((RustLanguage.DemangleName B mangled demangled).1 = kDemangleSuccess
   ↔ is_Some (rust_demangle B mangled)) ∧
  (∀ rd, rust_demangle B mangled = Some rd →
     RustLanguage.DemangleName B mangled demangled = (kDemangleSuccess, rd)) ∧
  (rust_demangle B mangled = None →
     (RustLanguage.DemangleName B mangled demangled).1 = kDemangleFailure).
Proof.
  unfold RustLanguage.DemangleName. intros ->.
  destruct (rust_demangle B mangled) as [rd|]; simpl.
  - split_and!; [|by intros rd' [= <-]|done].
    split; [by eexists | done].
  - split_and!; [|done..].
    split; [done | by intros [? ?]].
Qed.

Lemma Rust_preferred_outcome_witness :
  RustLanguage.DemangleName
    (rustc_build (λ m, if String.eqb m "_ZN3foo3barE" then Some "foo::bar"
                       else None))
    "_ZN3foo3barE" "old"
  = (kDemangleSuccess, "foo::bar") ∧
  (RustLanguage.DemangleName
     (rustc_build (λ m, if String.eqb m "_ZN3foo3barE" then Some "foo::bar"
                        else None))
     "junk" "old").1
  = kDemangleFailure.
Proof.
  split.
  - destruct (Rust_preferred_outcome
                (rustc_build (λ m, if String.eqb m "_ZN3foo3barE"
                                   then Some "foo::bar" else None))
                "_ZN3foo3barE" "old" eq_refl) as (_ & Hsome & _).
    apply Hsome. reflexivity.
  - destruct (Rust_preferred_outcome
                (rustc_build (λ m, if String.eqb m "_ZN3foo3barE"
                                   then Some "foo::bar" else None))
                "junk" "old" eq_refl) as (_ & _ & Hnone).
    apply Hnone. reflexivity.
Defined.

(** * Further properties *)

(** ** Chains of qualified names *)

Section chains.

Implicit Types (parent separator name acc : string) (names : list string).

Lemma MakeQualifiedNameWithSeparator_nonempty_result parent separator name :
  parent ≠ "" → MakeQualifiedNameWithSeparator parent separator name ≠ "".
Proof. by destruct parent. Qed.

(** Below a parent that is not empty every further name adds a separator
    and itself. *)
Lemma chain_from_nonempty separator names : ∀ acc,
  acc ≠ "" →
  foldl (λ parent name, MakeQualifiedNameWithSeparator parent separator name)
        acc names
  = acc +:+ String.concat "" ((λ name, separator +:+ name) <$> names).
Proof.
  induction names as [|name names IH]; intros acc Hacc; simpl.
  - by rewrite app_nil_r.
  - rewrite IH by by apply MakeQualifiedNameWithSeparator_nonempty_result.
    rewrite MakeQualifiedNameWithSeparator_nonempty by done.
    destruct names as [|name' names]; simpl.
    + by rewrite !app_nil_r.
    + rewrite !app_nil_l. by rewrite !app_assoc.
Qed.

Lemma concat_cons separator name names :
  String.concat separator (name :: names)
  = name +:+ String.concat "" ((λ name, separator +:+ name) <$> names).
Proof.
  revert name. induction names as [|name' names IH]; intros name.
  - simpl. by rewrite app_nil_r.
  - change (String.concat separator (name :: name' :: names))
      with (name +:+ separator +:+ String.concat separator (name' :: names)).
    rewrite IH. simpl. destruct names as [|name'' names]; simpl.
    + by rewrite !app_nil_r.
    + rewrite !app_nil_l. by rewrite !app_assoc.
Qed.

End chains.

(** X1. Composition is associative around a middle name that is not empty:
    qualifying [b] by [a] and then [c] by the result is qualifying [b +
    separator + c] by [a]. *)
Theorem MakeQualifiedNameWithSeparator_assoc (separator a b c : string) :
  b ≠ "" →
  MakeQualifiedNameWithSeparator
    (MakeQualifiedNameWithSeparator a separator b) separator c
  = MakeQualifiedNameWithSeparator
      a separator (MakeQualifiedNameWithSeparator b separator c).
Proof.
  intros Hb. rewrite (MakeQualifiedNameWithSeparator_nonempty b) by done.
  destruct a as [|x a].
  - simpl. by apply MakeQualifiedNameWithSeparator_nonempty.
  - rewrite !MakeQualifiedNameWithSeparator_nonempty by done.
    by rewrite !app_assoc.
Qed.

Lemma MakeQualifiedNameWithSeparator_assoc_witness :
  MakeQualifiedNameWithSeparator
    (MakeQualifiedNameWithSeparator "a" "::" "b") "::" "c"
  = MakeQualifiedNameWithSeparator
      "a" "::" (MakeQualifiedNameWithSeparator "b" "::" "c").
Proof.
  apply (MakeQualifiedNameWithSeparator_assoc "::" "a" "b" "c"). discriminate.
Defined.

Lemma chain_skip_empty (separator : string) (names : list string) :
  foldl (λ parent name, MakeQualifiedNameWithSeparator parent separator name)
        "" names
  = String.concat separator (skip_empty names).
Proof.
  induction names as [|name names IH]; [done|].
  destruct name as [|x name]; [done|].
  change (skip_empty (String x name :: names)) with (String x name :: names).
  rewrite concat_cons. simpl. by apply chain_from_nonempty.
Qed.

(** X2. Walking down a chain of scopes from no parent, one name at a time,
    gives the names joined by the separator, once the empty names the
    chain starts with are left out; an empty name further down is kept,
    with its separator. *)
Theorem MakeQualifiedName_chain (separator : string) (names : list string) :
  foldl (λ parent name, MakeQualifiedNameWithSeparator parent separator name)
        "" names
  = String.concat separator (skip_empty names).
Proof. apply chain_skip_empty. Qed.

Lemma last_cons_default {A} (l : list A) : ∀ x d,
  List.last (x :: l) d = List.last l x.
Proof.
  induction l as [|y l IH]; intros x d; [done|].
  change (List.last (x :: y :: l) d) with (List.last (y :: l) d).
  by rewrite !IH.
Qed.

(** X19. The same walk through the languages: C++ joins the names with
    "::", Java, Swift and Rust join them with ".", all without the empty
    names the chain starts with; the assembler language keeps the last
    name only. *)
Theorem MakeQualifiedName_chain_languages (l : Language) (names : list string) :
  (l = CPlusPlus →
   foldl (MakeQualifiedName l) "" names
   = String.concat "::" (skip_empty names)) ∧
  (l ∈ [Java; Swift; Rust] →
   foldl (MakeQualifiedName l) "" names
   = String.concat "." (skip_empty names)) ∧
  (l = Assembler → foldl (MakeQualifiedName l) "" names = List.last names "").
Proof.
  split_and!.
  - intros ->. apply chain_skip_empty.
  - intros Hl. apply list_elem_of_In in Hl. simpl in Hl.
    destruct Hl as [<- | [<- | [<- | []]]]; apply chain_skip_empty.
  - intros ->. generalize "". induction names as [|name names IH]; [done|].
    intros acc. cbn [foldl]. rewrite IH. symmetry. apply last_cons_default.
Qed.

Lemma MakeQualifiedName_chain_languages_witness :
  foldl (MakeQualifiedName CPlusPlus) "" [""; "ns"; "Klass"; "method"]
  = "ns::Klass::method" ∧
  foldl (MakeQualifiedName Rust) "" ["krate"; "module"; "item"]
  = "krate.module.item" ∧
  foldl (MakeQualifiedName Assembler) "" ["file"; "label"] = "label".
Proof.
  split_and!.
  - apply (MakeQualifiedName_chain_languages
             CPlusPlus [""; "ns"; "Klass"; "method"]). reflexivity.
  - apply (MakeQualifiedName_chain_languages
             Rust ["krate"; "module"; "item"]).
    apply list_elem_of_In. simpl. auto.
  - apply (MakeQualifiedName_chain_languages Assembler ["file"; "label"]).
    reflexivity.
Defined.

(** ** Tokens and the scan *)

Section tokens.

Implicit Types (it s l e o out w : string) (c d : ascii).

Lemma find_app it c : it = (find it c).1 +:+ (find it c).2.
Proof.
  induction it as [|a it IH]; [done|]. simpl.
  destruct (a =? c)%char; [done|].
  destruct (find it c) as [l e]. simpl in *. by rewrite app_cons, <- IH.
Qed.

Lemma find_before it c : mem c (find it c).1 = false.
Proof.
  induction it as [|a it IH]; [done|]. simpl.
  destruct (a =? c)%char eqn:E; [done|].
  destruct (find it c) as [l e]. simpl in *. by rewrite E.
Qed.

Lemma find_at it c l b e : find it c = (l, String b e) → b = c.
Proof.
  revert l. induction it as [|a it IH]; intros l; simpl; [done|].
  destruct (a =? c)%char eqn:E.
  - apply Ascii.eqb_eq in E as ->. by intros [= _ ->].
  - destruct (find it c) as [l' e'] eqn:Hf. intros [= _ ->]. by apply (IH l').
Qed.

Lemma find_first l c r : mem c l = false → find (l +:+ String c r) c = (l, String c r).
Proof.
  induction l as [|a l IH].
  - intros _. rewrite app_nil_l. simpl. by rewrite Ascii.eqb_refl.
  - simpl. intros [E Hl]%orb_false_iff. by rewrite E, (IH Hl).
Qed.

Lemma mem_without c d s : mem c (without d s) = mem c s && negb (c =? d)%char.
Proof.
  induction s as [|a s IH]; [done|]. simpl.
  destruct (a =? d)%char eqn:Ed; simpl; rewrite IH.
  - apply Ascii.eqb_eq in Ed as ->. rewrite (Ascii.eqb_sym d c).
    by destruct (c =? d)%char, (mem c s).
  - destruct (a =? c)%char eqn:Ec; [|done]. simpl.
    apply Ascii.eqb_eq in Ec as ->. by rewrite Ed.
Qed.

Lemma without_absent c s : mem c s = false → without c s = s.
Proof.
  induction s as [|a s IH]; [done|]. simpl.
  intros [E Hs]%orb_false_iff. by rewrite E, (IH Hs).
Qed.

Lemma without_length c s : String.length (without c s) ≤ String.length s.
Proof.
  induction s as [|a s IH]; [done|]. simpl.
  destruct (a =? c)%char; simpl; lia.
Qed.

Lemma all_without (p : ascii → bool) c s :
  all p s = true → all p (without c s) = true.
Proof.
  induction s as [|a s IH]; [done|]. simpl.
  intros [Ha Hs]%andb_true_iff.
  destruct (a =? c)%char; simpl; [by apply IH|]. by rewrite Ha, IH.
Qed.

(** What the loop has written is kept, and at most one character is
    written for each character read. *)
Lemma scan_loop_extends it : ∀ o,
  ∃ w, (scan_loop it o).2 = o +:+ w ∧ String.length w ≤ String.length it.
Proof.
  remember (String.length it) as n eqn:Hn.
  revert it Hn. induction (lt_wf n) as [n _ IH]. intros it -> o.
  destruct it as [|c it1]; simpl.
  { exists "". by rewrite app_nil_r. }
  destruct (c =? "_")%char.
  { destruct (IH (String.length it1) ltac:(simpl; lia) it1 eq_refl o)
      as (w & -> & Hw). exists w. split; [done | lia]. }
  destruct (c =? "$")%char.
  - destruct it1 as [|a it2].
    { exists "". rewrite app_nil_r. split; [done | simpl; lia]. }
    destruct (rust_replace_dollar (String a it2) o) as [[] o'] eqn:Hr.
    + assert (∃ x, o' = put o x) as [x ->].
      { revert Hr. unfold rust_replace_dollar.
        destruct (find (String a it2) "$") as [l [|b e]]; [done|].
        destruct (map !! l) as [x|]; [|done]. intros [= <-]. by exists x. }
      destruct (IH (String.length it2) ltac:(simpl; lia) it2 eq_refl (put o x))
        as (w & -> & Hw).
      exists (String x w). unfold put. rewrite app_assoc. simpl.
      split; [done | simpl; lia].
    + apply rust_replace_dollar_fail in Hr as ->.
      exists "". rewrite app_nil_r. split; [done | simpl; lia].
  - destruct (IH (String.length it1) ltac:(simpl; lia) it1 eq_refl (put o c))
      as (w & -> & Hw).
    exists (String c w). unfold put. rewrite app_assoc. simpl.
    split; [done | simpl; lia].
Qed.

End tokens.

(** X3. [rust_replace_dollar] returns true exactly when the characters up
    to the next '$' are a key of the table, and then it has written the
    one character the table gives for that key; when it returns false it
    has written nothing. *)
Theorem rust_replace_dollar_spec (it o o' : string) :
  (rust_replace_dollar it o = (true, o') ↔
   ∃ l r c, it = l +:+ String "$" r ∧ mem "$" l = false ∧
            map !! l = Some c ∧ o' = put o c) ∧
  (rust_replace_dollar it o = (false, o') → o' = o).
Proof.
  split; [|apply rust_replace_dollar_fail].
  unfold rust_replace_dollar. split.
  - pose proof (find_app it "$") as Happ.
    pose proof (find_before it "$") as Hbefore.
    destruct (find it "$") as [l e] eqn:Hf. cbn [fst snd] in *.
    destruct e as [|b e]; [done|].
    destruct (map !! l) as [c|] eqn:Hl; [|done]. intros [= <-].
    apply find_at in Hf as ->. by exists l, e, c.
  - intros (l & r & c & -> & Hl & Hc & ->).
    by rewrite (find_first _ _ _ Hl), Hc.
Qed.

Lemma rust_replace_dollar_spec_witness :
  rust_replace_dollar "RF$bar" "foo" = (true, "foo&") ∧ "foo" = "foo".
Proof.
  destruct (rust_replace_dollar_spec "RF$bar" "foo" "foo&") as [[_ Hyes] _].
  destruct (rust_replace_dollar_spec "zz$bar" "foo" "foo") as [_ Hno].
  split.
  - apply Hyes. exists "RF", "bar", "&"%char. split_and!; reflexivity.
  - apply Hno. reflexivity.
Defined.

(** X4. The scan returns true exactly on the strings without '$', and
    what it has written then is the string without its underscores. *)
Theorem rust_scan_replace_success (s o out : string) :
  rust_scan_replace s o = (true, out)
  ↔ mem "$" s = false ∧ out = o +:+ without "_" s.
Proof.
  unfold rust_scan_replace. split.
  - intros H. destruct (mem "$" s) eqn:Hm.
    + apply (scan_loop_dollar_fails s o) in Hm. by rewrite H in Hm.
    + rewrite (scan_loop_no_dollar _ _ Hm) in H. by injection H as <-.
  - intros [Hm ->]. by apply scan_loop_no_dollar.
Qed.

(** X5. Whether it returns true or false, the scan keeps what was in the
    stream and adds at most as many characters as the string has. *)
Theorem rust_scan_replace_extends (s o : string) :
  ∃ w, (rust_scan_replace s o).2 = o +:+ w
       ∧ String.length w ≤ String.length s.
Proof. apply scan_loop_extends. Qed.

(** X6. A string the scan has produced goes through the scan unchanged. *)
Theorem rust_scan_replace_idempotent (s out : string) :
  rust_scan_replace s "" = (true, out) →
  rust_scan_replace out "" = (true, out).
Proof.
  unfold rust_scan_replace. intros H.
  destruct (mem "$" s) eqn:Hm.
  { apply (scan_loop_dollar_fails s "") in Hm. by rewrite H in Hm. }
  rewrite (scan_loop_no_dollar _ _ Hm), app_nil_l in H. injection H as <-.
  rewrite scan_loop_no_dollar by by rewrite mem_without, Hm.
  rewrite app_nil_l. f_equal. apply without_absent.
  rewrite mem_without. by rewrite andb_false_r.
Qed.

Lemma rust_scan_replace_idempotent_witness :
  rust_scan_replace "my_mod::do_it" "" = (true, "mymod::doit") ∧
  rust_scan_replace "mymod::doit" "" = (true, "mymod::doit").
Proof.
  split; [reflexivity|].
  apply (rust_scan_replace_idempotent "my_mod::do_it"). reflexivity.
Defined.

(** ** The table *)

(** Every entry of the table, one case for each. *)
Ltac table_entry H :=
  unfold map in H; apply elem_of_list_to_map_2 in H;
  repeat (apply elem_of_cons in H as [H | H]; [simplify_eq|]);
  [.. | by apply elem_of_nil in H].

(** X7. A key of the table has one to three characters, all letters or
    digits, so that no key holds a '$' or an underscore; the character it
    stands for is none of those the pattern allows in a prefix; and two
    keys never stand for the same character. *)
Theorem map_keys_and_characters :
  (∀ l c, map !! l = Some c →
     1 ≤ String.length l ≤ 3 ∧ all token_char l = true ∧
     mem "$" l = false ∧ mem "_" l = false ∧ prefix_char c = false) ∧
  (∀ l1 l2 c, map !! l1 = Some c → map !! l2 = Some c → l1 = l2).
Proof.
  split.
  - intros l c H. table_entry H; (split; [simpl; lia | done]).
  - intros l1 l2 c H1 H2. table_entry H1; table_entry H2; done.
Qed.

Lemma map_keys_and_characters_witness :
  (1 ≤ String.length "u20" ≤ 3 ∧ all token_char "u20" = true ∧
   mem "$" "u20" = false ∧ mem "_" "u20" = false ∧ prefix_char " " = false).
Proof.
  destruct map_keys_and_characters as [H _].
  apply (H "u20" " "%char). reflexivity.
Defined.

(** ** The Rust fallback path, end to end *)

Section fallback.

Implicit Types (B : Build) (mangled demangled rd prefix out : string).

Lemma Rust_fallback_success_inv B mangled demangled out :
  HAVE_RUST_DEMANGLE B = false →
  RustLanguage.DemangleName B mangled demangled = (kDemangleSuccess, out) →
  ∃ rd prefix, cxa_demangle B mangled = cxa_ok rd ∧ hashed rd prefix ∧
               mem "$" prefix = false ∧ out = without "_" prefix.
Proof.
  intros HB. unfold RustLanguage.DemangleName. rewrite HB.
  destruct (cxa_demangle B mangled) as [rd|]; [|done].
  destruct (Regex.regex_match Regex.re rd) as [sm|] eqn:Hm; [|done].
  apply regex_match_re in Hm as (prefix & Hrd & ->).
  pose proof Hrd as (hash & -> & _). rewrite str_groups.
  destruct (mem "$" prefix) eqn:Hd.
  - pose proof (scan_loop_dollar_fails prefix "" Hd) as Hf.
    unfold rust_scan_replace. by destruct (scan_loop prefix "") as [[] o].
  - unfold rust_scan_replace. rewrite (scan_loop_no_dollar _ _ Hd), app_nil_l.
    intros [= <-]. by exists (prefix +:+ "::h" +:+ hash), prefix.
Qed.

Lemma name_char_without prefix :
  all prefix_char prefix = true → mem "$" prefix = false →
  all name_char (without "_" prefix) = true.
Proof.
  induction prefix as [|a s IH]; [done|]. simpl.
  intros [Ha Hs]%andb_true_iff [Hd Hm]%orb_false_iff.
  destruct (a =? "_")%char eqn:Hu; simpl; [by apply IH|].
  rewrite (IH Hs Hm), andb_true_r.
  unfold prefix_char in Ha. unfold name_char. rewrite Hu, Hd in Ha.
  by rewrite !orb_false_r in Ha.
Qed.

Lemma substring_skip s t n m :
  substring (String.length s + n) m (s +:+ t) = substring n m t.
Proof. induction s as [|c s IH]; [done|]. by rewrite app_cons. Qed.

Lemma substring_all s : substring 0 (String.length s) s = s.
Proof. rewrite <- (app_nil_r s) at 2. apply substring_app_l. Qed.

Lemma str_groups_hash prefix hash :
  String.length hash = 16 →
  Regex.str (groups prefix) 2 (prefix +:+ "::h" +:+ hash) = hash.
Proof.
  intros Hlen. unfold Regex.str, groups. rewrite lookup_insert_eq.
  replace (String.length prefix + 19 - (String.length prefix + 3)) with 16
    by lia.
  rewrite substring_skip. simpl. rewrite <- Hlen. apply substring_all.
Qed.

End fallback.

(** X8. Without the external Rust demangler the operation succeeds with
    the output [out] exactly when the platform demangler decodes the name
    to a string of the shape prefix, "::h", 16 hexadecimal digits, the
    prefix has no '$', and [out] is the prefix without its underscores. *)
Theorem Rust_fallback_success
    (B : Build) (mangled demangled out : string) :
  HAVE_RUST_DEMANGLE B = false →
  (RustLanguage.DemangleName B mangled demangled = (kDemangleSuccess, out)
   ↔ ∃ rd prefix, cxa_demangle B mangled = cxa_ok rd ∧ hashed rd prefix ∧
                  mem "$" prefix = false ∧ out = without "_" prefix).
Proof.
  intros HB. split; [by apply Rust_fallback_success_inv|].
  intros (rd & prefix & Hcxa & Hrd & Hd & ->).
  rewrite (Rust_fallback_hashed _ _ _ _ _ HB Hcxa Hrd).
  unfold rust_scan_replace. by rewrite (scan_loop_no_dollar _ _ Hd), app_nil_l.
Qed.

Lemma Rust_fallback_success_witness :
  RustLanguage.DemangleName
    (linux_build "_ZN6my_mod5do_it17h0123456789abcdefE"
                 "my_mod::do_it::h0123456789abcdef")
    "_ZN6my_mod5do_it17h0123456789abcdefE" "old"
  = (kDemangleSuccess, "mymod::doit").
Proof.
  apply (Rust_fallback_success
           (linux_build "_ZN6my_mod5do_it17h0123456789abcdefE"
                        "my_mod::do_it::h0123456789abcdef")
           "_ZN6my_mod5do_it17h0123456789abcdefE" "old" "mymod::doit"
           eq_refl).
  exists "my_mod::do_it::h0123456789abcdef", "my_mod::do_it".
  split_and!; [reflexivity| |reflexivity..].
  exists "0123456789abcdef". split_and!; [reflexivity | discriminate |
    reflexivity | reflexivity | reflexivity].
Defined.

(** X9. When the C++ operation or the Rust fallback path does not
    succeed, the output is empty; and neither of them looks at what the
    caller left in the output. *)
Theorem DemangleName_failure_clears (B : Build) (mangled demangled : string) :
  ((CPPLanguage.DemangleName B mangled demangled).1 ≠ kDemangleSuccess →
   (CPPLanguage.DemangleName B mangled demangled).2 = "") ∧
  (HAVE_RUST_DEMANGLE B = false →
   (RustLanguage.DemangleName B mangled demangled).1 ≠ kDemangleSuccess →
   (RustLanguage.DemangleName B mangled demangled).2 = "") ∧
  (∀ demangled',
     CPPLanguage.DemangleName B mangled demangled
     = CPPLanguage.DemangleName B mangled demangled') ∧
  (HAVE_RUST_DEMANGLE B = false →
   ∀ demangled',
     RustLanguage.DemangleName B mangled demangled
     = RustLanguage.DemangleName B mangled demangled').
Proof.
  split_and!.
  - apply CPP_DemangleName_clears.
  - apply Rust_fallback_clears.
  - done.
  - unfold RustLanguage.DemangleName. by intros ->.
Qed.

Lemma DemangleName_failure_clears_witness :
  (CPPLanguage.DemangleName android_build "_Z1fv" "old").2 = "" ∧
  (RustLanguage.DemangleName (linux_build "_Z1fv" "f()") "_Z1fv" "old").2 = "" ∧
  RustLanguage.DemangleName (linux_build "_Z1fv" "f()") "_Z1fv" "old"
  = RustLanguage.DemangleName (linux_build "_Z1fv" "f()") "_Z1fv" "new".
Proof.
  destruct (DemangleName_failure_clears android_build "_Z1fv" "old")
    as (Hcpp & _).
  destruct (DemangleName_failure_clears (linux_build "_Z1fv" "f()")
              "_Z1fv" "old") as (_ & Hrust & _ & Hsame).
  split_and!.
  - apply Hcpp. discriminate.
  - apply Hrust; [reflexivity | discriminate].
  - apply Hsame. reflexivity.
Defined.

(** X10. When the pattern matches, its two groups and the "::h" between
    them make up the whole string: the first group is not empty and holds
    only characters of the first bracket, the second is the 16 hexadecimal
    digits the string ends with, and the string has at least 20
    characters. *)
Theorem re_match_groups (rd : string) (sm : Regex.smatch) :
  Regex.regex_match Regex.re rd = Some sm →
  Regex.str sm 1 rd +:+ "::h" +:+ Regex.str sm 2 rd = rd ∧
  Regex.str sm 1 rd ≠ "" ∧
  all prefix_char (Regex.str sm 1 rd) = true ∧
  String.length (Regex.str sm 2 rd) = 16 ∧
  all hex_char (Regex.str sm 2 rd) = true ∧
  20 ≤ String.length rd.
Proof.
  intros (prefix & (hash & -> & Hne & Hall & Hlen & Hhex) & ->)%regex_match_re.
  rewrite str_groups, (str_groups_hash _ _ Hlen).
  split_and!; try done.
  rewrite !app_length. simpl. destruct prefix; [done|]. simpl. lia.
Qed.

Lemma re_match_groups_witness :
  Regex.str (groups "foo::bar") 1 "foo::bar::h0123456789abcdef" +:+ "::h"
    +:+ Regex.str (groups "foo::bar") 2 "foo::bar::h0123456789abcdef"
  = "foo::bar::h0123456789abcdef".
Proof.
  apply (re_match_groups "foo::bar::h0123456789abcdef" (groups "foo::bar")).
  reflexivity.
Defined.

(** X11. A name the fallback path hands out is made of letters, digits,
    '.' and ':' only, and is at least 19 characters shorter than what the
    platform demangler decoded. *)
Theorem Rust_fallback_output
    (B : Build) (mangled demangled out : string) :
  HAVE_RUST_DEMANGLE B = false →
  RustLanguage.DemangleName B mangled demangled = (kDemangleSuccess, out) →
  all name_char out = true ∧
  ∃ rd, cxa_demangle B mangled = cxa_ok rd
        ∧ String.length out + 19 ≤ String.length rd.
Proof.
  intros HB H.
  apply Rust_fallback_success_inv in H
    as (rd & prefix & Hcxa & (hash & -> & _ & Hall & Hlen & _) & Hd & ->);
    [|done].
  split; [by apply name_char_without|].
  eexists; split; [done|]. rewrite !app_length. simpl.
  pose proof (without_length "_" prefix). lia.
Qed.

Lemma Rust_fallback_output_witness :
  all name_char "mymod::doit" = true ∧
  ∃ rd, cxa_only "_ZN6my_mod5do_it17h0123456789abcdefE"
                 "my_mod::do_it::h0123456789abcdef"
                 "_ZN6my_mod5do_it17h0123456789abcdefE" = cxa_ok rd
        ∧ String.length "mymod::doit" + 19 ≤ String.length rd.
Proof.
  apply (Rust_fallback_output
           (linux_build "_ZN6my_mod5do_it17h0123456789abcdefE"
                        "my_mod::do_it::h0123456789abcdef")
           "_ZN6my_mod5do_it17h0123456789abcdefE" "old" "mymod::doit");
    reflexivity.
Defined.

(** X20. On a build with the platform demangler and without the external
    Rust demangler, a name the C++ operation does not decode is not
    decoded by the Rust operation either. *)
Theorem Rust_fallback_needs_CPP
    (B : Build) (mangled demangled demangled' : string) :
  HAVE_RUST_DEMANGLE B = false → ANDROID B = false →
  (CPPLanguage.DemangleName B mangled demangled).1 ≠ kDemangleSuccess →
  RustLanguage.DemangleName B mangled demangled' = (kDemangleFailure, "").
Proof.
  unfold CPPLanguage.DemangleName, RustLanguage.DemangleName.
  intros -> ->. by destruct (cxa_demangle B mangled).
Qed.

Lemma Rust_fallback_needs_CPP_witness :
  RustLanguage.DemangleName (linux_build "_Z1fv" "f()") "_ZN3fooE" "old"
  = (kDemangleFailure, "").
Proof.
  apply (Rust_fallback_needs_CPP (linux_build "_Z1fv" "f()")
           "_ZN3fooE" "old" "old"); [reflexivity | reflexivity | discriminate].
Defined.

(** ** The upload of a minidump *)

Section upload.

Import BacktraceHandler BacktraceHandlerContext.

Implicit Types (E : environment) (w : world) (c : call) (a : answer).
Implicit Types (h evs : list (call * answer)) (cs : list call).
Implicit Types (ctx : BacktraceHandlerContext).

Lemma replay_app E cs1 cs2 : ∀ h,
  replay E h (cs1 ++ cs2)
  = replay E h cs1 ++ replay E (h ++ replay E h cs1) cs2.
Proof.
  induction cs1 as [|c cs1 IH]; intros h; simpl.
  - by rewrite List.app_nil_r.
  - by rewrite IH, <- List.app_assoc.
Qed.

Lemma replay_calls E cs : ∀ h, (replay E h cs).*1 = cs.
Proof. induction cs as [|c cs IH]; intros h; simpl; [done|]. by rewrite IH. Qed.

Lemma until_refused_app {A} (acc : A → bool) (l1 l2 : list A) :
  until_refused acc (l1 ++ l2)
  = if forallb acc l1 then l1 ++ until_refused acc l2
    else until_refused acc l1.
Proof.
  induction l1 as [|x l1 IH]; simpl; [done|].
  destruct (acc x); simpl; [|done]. rewrite IH. by destruct (forallb acc l1).
Qed.

Lemma until_refused_all {A} (acc : A → bool) (l : list A) :
  forallb acc l = true → until_refused acc l = l.
Proof.
  induction l as [|x l IH]; simpl; [done|].
  intros [-> Hl]%andb_true_iff. by rewrite IH.
Qed.


(** The loop makes the calls for the attributes in order, up to the first
    one that is refused. *)
Lemma AddFormParameters_plan kvs : ∀ E w,
  AddFormParameters kvs E w
  = (forallb accepted
       (replay E (history w) ((λ kv, AddFormParameter kv.1 kv.2) <$> kvs)),
     {| history := history w
          ++ until_refused accepted
               (replay E (history w)
                  ((λ kv, AddFormParameter kv.1 kv.2) <$> kvs));
        cerr := cerr w |}).
Proof.
  induction kvs as [|kv kvs IH]; intros E [h e]; simpl.
  - unfold mret, io_ret. by rewrite List.app_nil_r.
  - unfold mbind, io_bind, perform. simpl. unfold accepted at 1 3. simpl.
    destruct (ok (E h (AddFormParameter kv.1 kv.2))); [|done].
    rewrite IH. simpl. by rewrite <- List.app_assoc.
Qed.

Lemma flat_map_diagnostic_parameters E kvs : ∀ h,
  flat_map diagnostic_of
    (until_refused accepted
       (replay E h ((λ kv, AddFormParameter kv.1 kv.2) <$> kvs))) = [].
Proof.
  induction kvs as [|kv kvs IH]; intros h; simpl; [done|].
  unfold accepted at 1. simpl.
  destruct (ok (E h (AddFormParameter kv.1 kv.2))); simpl; [|done].
  apply IH.
Qed.

Ltac settle :=
  unfold diagnostic_of, accepted, accepted_001;
  cbn [fst snd history cerr negb orb andb];
  repeat match goal with
         | H : ok ?x = _ |- context [ok ?x] => rewrite H
         end;
  cbn [fst snd history cerr negb orb andb app];
  rewrite ?List.app_nil_r.

Lemma planned_nil acc E w : planned acc [] E w = (true, w).
Proof. destruct w. unfold planned. simpl. by rewrite !List.app_nil_r. Qed.

Lemma planned_cons acc c cs E w :
  planned acc (c :: cs) E w
  = let a := E (history w) c in
    let w1 := {| history := history w ++ [(c, a)];
                 cerr := cerr w ++ diagnostic_of (c, a) |} in
    if acc (c, a) then planned acc cs E w1 else (false, w1).
Proof.
  unfold planned. simpl. destruct (acc (c, E (history w) c)); simpl.
  - by rewrite <- !List.app_assoc.
  - by rewrite List.app_nil_r.
Qed.

Lemma planned_app acc cs1 cs2 : ∀ E w,
  planned acc (cs1 ++ cs2) E w
  = let (b, w') := planned acc cs1 E w in
    if b then planned acc cs2 E w' else (false, w').
Proof.
  induction cs1 as [|c cs1 IH]; intros E w.
  - by rewrite planned_nil.
  - change ((c :: cs1) ++ cs2) with (c :: (cs1 ++ cs2)).
    rewrite !planned_cons. cbv zeta.
    destruct (acc (c, E (history w) c)); [apply IH | done].
Qed.

Lemma AddFormParameters_planned kvs E w :
  AddFormParameters kvs E w
  = planned accepted ((λ kv, AddFormParameter kv.1 kv.2) <$> kvs) E w.
Proof.
  rewrite AddFormParameters_plan. unfold planned.
  by rewrite flat_map_diagnostic_parameters, List.app_nil_r.
Qed.

(** The callback makes the calls of [upload_calls] in order, up to the
    first one whose answer is not accepted, and returns true when all of
    them are accepted. *)
Lemma MinidumpCallback_planned minidump_pathname ctx E w :
  MinidumpCallback minidump_pathname true (Some ctx) E w
  = planned accepted (upload_calls ctx minidump_pathname) E w.
Proof.
  destruct w as [h e]. unfold upload_calls. cbn [app].
  do 3 (rewrite planned_cons; cbv zeta).
  rewrite planned_app, <- AddFormParameters_planned.
  unfold MinidumpCallback, mbind, io_bind, perform, write, mret, io_ret.
  cbn [history cerr].
  destruct (ok (E h LibcurlWrapper_Init)) eqn:Hi; settle.
  all: destruct (ok (E _ (stat minidump_pathname))) eqn:Hs; settle;
    [|done].
  all: destruct (ok (E _ (AddFormParameter "token" _))) eqn:Ht; settle;
    [|done].
  all: destruct (AddFormParameters _ E _) as [[] [h' e']]; [|done].
  all: do 2 (rewrite planned_cons; cbv zeta); rewrite planned_nil; settle.
  all: destruct (ok (E h' (AddFile _ _))) eqn:Hf; settle; [|done].
  all: destruct (ok (E _ (SendRequest _ _))) eqn:Hr; settle; [|done].
  all: by destruct (isSuccessfulHttpCode _); settle.
Qed.

(** The callback of the second copy makes the calls of
    [upload_calls_001], and the status of the request does not stop it. *)
Lemma MinidumpCallback_001_planned minidump_pathname ctx E w :
  part_001.MinidumpCallback minidump_pathname true (Some ctx) E w
  = planned accepted_001 (upload_calls_001 ctx minidump_pathname) E w.
Proof.
  destruct w as [h e]. unfold upload_calls_001.
  do 4 (rewrite planned_cons; cbv zeta). rewrite planned_nil.
  unfold part_001.MinidumpCallback, mbind, io_bind, perform, write, mret,
    io_ret.
  cbn [history cerr].
  destruct (ok (E h LibcurlWrapper_Init)) eqn:Hi; settle.
  all: destruct (ok (E _ (stat minidump_pathname))) eqn:Hs; settle;
    [|done].
  all: destruct (ok (E _ (AddFile _ _))) eqn:Hf; settle; [|done].
  all: destruct (ok (E _ (SendRequest _ _))) eqn:Hr; settle; [|done].
  all: by destruct (isSuccessfulHttpCode _); settle.
Qed.

End upload.

(** X12. Without a context, or when no minidump was written, the callback
    returns false and leaves the world as it is: no call to the HTTP layer
    or the file system, nothing on [std::cerr]; in both copies of the
    file. *)
Theorem MinidumpCallback_idle
    (minidump_pathname : string) (succeeded : bool)
    (ctx_ : BacktraceHandler.global)
    (E : BacktraceHandlerContext.environment)
    (w : BacktraceHandlerContext.world) :
  ctx_ = None ∨ succeeded = false →
  BacktraceHandlerContext.MinidumpCallback
    minidump_pathname succeeded ctx_ E w = (false, w) ∧
  part_001.MinidumpCallback minidump_pathname succeeded ctx_ E w = (false, w).
Proof. intros [-> | ->]; [done | by destruct ctx_]. Qed.

Lemma MinidumpCallback_idle_witness :
  BacktraceHandlerContext.MinidumpCallback "/tmp/a.dmp" true None
    (answering (λ _, false) 200) empty_world = (false, empty_world) ∧
  part_001.MinidumpCallback "/tmp/a.dmp" true None
    (answering (λ _, false) 200) empty_world = (false, empty_world).
Proof.
  apply (MinidumpCallback_idle "/tmp/a.dmp" true None
           (answering (λ _, false) 200) empty_world).
  by left.
Defined.

(** X13. With a context and a minidump, the callback makes the calls of
    an upload in their order (the HTTP layer, the file, the token, the
    attributes by increasing key, the file to send, the request) up to
    the first one that is not accepted; it returns true when all are
    accepted, and what it writes to [std::cerr] is what the calls made
    give rise to.  A failure of the HTTP layer to initialise is reported
    and stops nothing. *)
Theorem MinidumpCallback_upload
    (minidump_pathname : string)
    (ctx : BacktraceHandler.BacktraceHandlerContext)
    (E : BacktraceHandlerContext.environment)
    (w : BacktraceHandlerContext.world) :
  let evs :=
    replay E (BacktraceHandlerContext.history w)
      (upload_calls ctx minidump_pathname) in
  BacktraceHandlerContext.MinidumpCallback
    minidump_pathname true (Some ctx) E w
  = (forallb accepted evs,
     {| BacktraceHandlerContext.history :=
          BacktraceHandlerContext.history w ++ until_refused accepted evs;
        BacktraceHandlerContext.cerr :=
          BacktraceHandlerContext.cerr w
          ++ flat_map diagnostic_of (until_refused accepted evs) |}).
Proof. apply MinidumpCallback_planned. Qed.

(** X14. When the callback returns true a context was installed, a
    minidump had been written, every call of the upload was made, and the
    last of them is the request to the URL of the context followed by
    "/api/minidump/post", without parameters, which succeeded with a
    status from 200 to 299. *)
Theorem MinidumpCallback_true
    (minidump_pathname : string) (succeeded : bool)
    (ctx_ : BacktraceHandler.global)
    (E : BacktraceHandlerContext.environment)
    (w : BacktraceHandlerContext.world) :
  (BacktraceHandlerContext.MinidumpCallback
     minidump_pathname succeeded ctx_ E w).1 = true →
  ∃ ctx evs a,
    ctx_ = Some ctx ∧ succeeded = true ∧
    BacktraceHandlerContext.history
      (BacktraceHandlerContext.MinidumpCallback
         minidump_pathname succeeded ctx_ E w).2
    = BacktraceHandlerContext.history w
      ++ evs
      ++ [(BacktraceHandlerContext.SendRequest
             (BacktraceHandler.url_ ctx +:+ "/api/minidump/post") ∅, a)] ∧
    (evs.*1
     ++ [BacktraceHandlerContext.SendRequest
           (BacktraceHandler.url_ ctx +:+ "/api/minidump/post") ∅])
    = upload_calls ctx minidump_pathname ∧
    BacktraceHandlerContext.ok a = true ∧
    (200 ≤ BacktraceHandlerContext.http_status_code a < 300)%Z.
Proof.
  destruct ctx_ as [ctx|]; [|done]. destruct succeeded; [|done].
  rewrite MinidumpCallback_planned. unfold planned. cbn [fst snd].
  cbn [BacktraceHandlerContext.history].
  assert (∃ front,
            upload_calls ctx minidump_pathname
            = front
              ++ [BacktraceHandlerContext.SendRequest
                    (BacktraceHandler.url_ ctx +:+ "/api/minidump/post") ∅])
    as [front Hlast].
  { exists ([BacktraceHandlerContext.LibcurlWrapper_Init;
              BacktraceHandlerContext.stat minidump_pathname;
              BacktraceHandlerContext.AddFormParameter
                "token" (BacktraceHandler.token_ ctx)]
             ++ ((λ kv, BacktraceHandlerContext.AddFormParameter kv.1 kv.2)
                   <$> BacktraceHandlerContext.entries
                         (BacktraceHandler.attributes_ ctx))
             ++ [BacktraceHandlerContext.AddFile
                   minidump_pathname "upload_file_minidump"]).
    unfold upload_calls. by rewrite <- !List.app_assoc. }
  intros Hacc. rewrite until_refused_all by done.
  rewrite Hlast in Hacc |- *. rewrite replay_app in Hacc |- *.
  simpl in Hacc |- *.
  rewrite forallb_app in Hacc. apply andb_true_iff in Hacc as [_ Hacc].
  simpl in Hacc. rewrite andb_true_r in Hacc.
  unfold accepted in Hacc. cbn [fst snd] in Hacc.
  apply andb_true_iff in Hacc as [Hok Hcode].
  unfold BacktraceHandler.isSuccessfulHttpCode in Hcode.
  apply andb_true_iff in Hcode as [Hlo Hhi].
  eexists ctx, _, _. split_and!; try done.
  - by rewrite replay_calls.
  - lia.
  - lia.
Qed.

Lemma MinidumpCallback_true_witness :
  ∃ ctx evs a,
    Some (BacktraceHandler.new_BacktraceHandlerContext
            "https://h" "tok" (<["b" := "2"]> (<["a" := "1"]> ∅)))
    = Some ctx ∧ true = true ∧
    BacktraceHandlerContext.history
      (BacktraceHandlerContext.MinidumpCallback "/tmp/a.dmp" true
         (Some (BacktraceHandler.new_BacktraceHandlerContext
                  "https://h" "tok" (<["b" := "2"]> (<["a" := "1"]> ∅))))
         (answering (λ _, false) 200) empty_world).2
    = BacktraceHandlerContext.history empty_world
      ++ evs
      ++ [(BacktraceHandlerContext.SendRequest
             (BacktraceHandler.url_ ctx +:+ "/api/minidump/post") ∅, a)] ∧
    (evs.*1
     ++ [BacktraceHandlerContext.SendRequest
           (BacktraceHandler.url_ ctx +:+ "/api/minidump/post") ∅])
    = upload_calls ctx "/tmp/a.dmp" ∧
    BacktraceHandlerContext.ok a = true ∧
    (200 ≤ BacktraceHandlerContext.http_status_code a < 300)%Z.
Proof.
  apply (MinidumpCallback_true "/tmp/a.dmp" true
           (Some (BacktraceHandler.new_BacktraceHandlerContext
                    "https://h" "tok" (<["b" := "2"]> (<["a" := "1"]> ∅))))
           (answering (λ _, false) 200) empty_world).
  vm_compute. reflexivity.
Defined.


(** X16. The callback works with the context of the first call to [Init]:
    calls to [Init] made after it, whatever their arguments, change
    nothing in what the callback does. *)
Theorem MinidumpCallback_first_Init
    (url token : string) (attributes : gmap string string)
    (later : list (string * string * gmap string string))
    (minidump_pathname : string) (succeeded : bool)
    (E : BacktraceHandlerContext.environment)
    (w : BacktraceHandlerContext.world) :
  BacktraceHandlerContext.MinidumpCallback minidump_pathname succeeded
    (BacktraceHandler.Init_calls ((url, token, attributes) :: later) None).2
    E w
  = BacktraceHandlerContext.MinidumpCallback minidump_pathname succeeded
      (Some (BacktraceHandler.new_BacktraceHandlerContext
               url token attributes))
      E w.
Proof. simpl. by rewrite Init_calls_installed. Qed.

(** X17. In the second copy of the file the callback makes the calls of
    its own upload, with the token in the URL and the attributes given to
    the request, up to the first call that fails; it returns true when
    the file was found and added and the request succeeded, whatever the
    status of the answer, which only decides whether the failure message
    is written. *)
Theorem MinidumpCallback_001_upload
    (minidump_pathname : string)
    (ctx : BacktraceHandler.BacktraceHandlerContext)
    (E : BacktraceHandlerContext.environment)
    (w : BacktraceHandlerContext.world) :
  let evs :=
    replay E (BacktraceHandlerContext.history w)
      (upload_calls_001 ctx minidump_pathname) in
  part_001.MinidumpCallback minidump_pathname true (Some ctx) E w
  = (forallb accepted_001 evs,
     {| BacktraceHandlerContext.history :=
          BacktraceHandlerContext.history w ++ until_refused accepted_001 evs;
        BacktraceHandlerContext.cerr :=
          BacktraceHandlerContext.cerr w
          ++ flat_map diagnostic_of (until_refused accepted_001 evs) |}).
Proof. apply MinidumpCallback_001_planned. Qed.

(** X18. When the loop over the attributes runs to its end, it has sent
    every attribute of the map once, and nothing else, and each call was
    accepted. *)
Theorem AddFormParameters_each_once
    (m : gmap string string)
    (E : BacktraceHandlerContext.environment)
    (w : BacktraceHandlerContext.world) :
  (BacktraceHandlerContext.AddFormParameters
     (BacktraceHandlerContext.entries m) E w).1 = true →
  ∃ evs,
    BacktraceHandlerContext.history
      (BacktraceHandlerContext.AddFormParameters
         (BacktraceHandlerContext.entries m) E w).2
    = BacktraceHandlerContext.history w ++ evs ∧
    (∀ c, c ∈ evs.*1 ↔
          ∃ k v, c = BacktraceHandlerContext.AddFormParameter k v
                 ∧ m !! k = Some v) ∧
    NoDup evs.*1 ∧
    Forall (λ e, BacktraceHandlerContext.ok e.2 = true) evs ∧
    ∃ kvs, evs.*1
           = (λ kv, BacktraceHandlerContext.AddFormParameter kv.1 kv.2)
               <$> kvs
           ∧ Sorted BacktraceHandlerContext.key_le kvs.
Proof.
  rewrite AddFormParameters_plan. cbn [fst snd].
  cbn [BacktraceHandlerContext.history]. intros Hacc.
  rewrite until_refused_all by done. eexists. split; [done|].
  rewrite replay_calls.
  assert (BacktraceHandlerContext.entries m ≡ₚ map_to_list m) as Hperm
    by apply merge_sort_Permutation.
  split_and!.
  - intros c. rewrite list_elem_of_fmap. split.
    + intros ([k v] & -> & Hin). exists k, v. split; [done|].
      rewrite Hperm in Hin. by apply elem_of_map_to_list in Hin.
    + intros (k & v & -> & Hkv). exists (k, v). split; [done|].
      rewrite Hperm. by apply elem_of_map_to_list.
  - apply NoDup_fmap_2.
    + intros [k v] [k' v'] [= -> ->]. done.
    + rewrite Hperm. apply NoDup_map_to_list.
  - clear Hperm. revert Hacc. generalize (BacktraceHandlerContext.history w).
    induction (BacktraceHandlerContext.entries m) as [|kv kvs IH];
      intros h; simpl; [by constructor|].
    intros [Hok Hacc]%andb_true_iff. constructor; [done|]. by apply IH.
  - exists (BacktraceHandlerContext.entries m). split; [done|].
    apply Sorted_merge_sort. intros a b. apply (total String.le).
Qed.

Lemma AddFormParameters_each_once_witness :
  ∃ evs,
    BacktraceHandlerContext.history
      (BacktraceHandlerContext.AddFormParameters
         (BacktraceHandlerContext.entries (<["b" := "2"]> (<["a" := "1"]> ∅)))
         (answering (λ _, false) 200) empty_world).2
    = BacktraceHandlerContext.history empty_world ++ evs ∧
    (∀ c, c ∈ evs.*1 ↔
          ∃ k v, c = BacktraceHandlerContext.AddFormParameter k v
                 ∧ (<["b" := "2"]> (<["a" := "1"]> ∅) : gmap string string)
                     !! k = Some v) ∧
    NoDup evs.*1 ∧
    Forall (λ e, BacktraceHandlerContext.ok e.2 = true) evs ∧
    ∃ kvs, evs.*1
           = (λ kv, BacktraceHandlerContext.AddFormParameter kv.1 kv.2)
               <$> kvs
           ∧ Sorted BacktraceHandlerContext.key_le kvs.
Proof.
  apply (AddFormParameters_each_once (<["b" := "2"]> (<["a" := "1"]> ∅))
           (answering (λ _, false) 200) empty_world).
  vm_compute. reflexivity.
Defined.
